(** * evening-lights: the event timeline of the LifX evening schedule

    A shallow embedding of [scripts/lifx-lights/evening-lights.py]: the
    sunset lookup with its fallback, lamp states and timed events, the
    sorted timeline with its blocking [pop], the save/restore of device
    states and the scheduler loop of [main], followed by the properties
    of these functions.

    Python code runs in a small state-and-exception monad over a [world]
    that holds the wall clock, the time zone of the process, the answers
    of the sunrise-sunset service, the lamps on the network, the one
    [Timeline] object of the script and the trace of the effects that
    were performed.  A raised exception keeps the world it was raised in:
    what Python code has mutated before raising stays mutated. *)

From Stdlib Require Import ZArith List Bool String Lia Floats Permutation.
From Stdlib Require Import DecimalString QArith Qpower Lqa.
Import ListNotations.
Open Scope Z_scope.

(** ** Dates and times

    An aware [datetime] is an instant: the microseconds elapsed since the
    epoch, in UTC.  Comparison, subtraction and the addition of a
    [timedelta] on aware datetimes act on instants whatever their
    [tzinfo], so the instant is all the script observes.  A [timedelta]
    counts microseconds, a [date] counts days from the epoch and a naive
    [time] counts the microseconds from midnight. *)

Definition datetime := Z.
Definition timedelta := Z.
Definition date := Z.
Definition naive_time := Z.

Definition usec_per_second : Z := 1000000.
Definition usec_per_day : Z := 86400 * usec_per_second.

Definition seconds (n : Z) : timedelta := n * usec_per_second.
Definition minutes (n : Z) : timedelta := n * 60 * usec_per_second.
Definition hours (n : Z) : timedelta := n * 3600 * usec_per_second.
Definition days (n : Z) : timedelta := n * usec_per_day.

(** [_time(hour, minute, second)] *)
Definition _time (hour minute second : Z) : naive_time :=
  hours hour + minutes minute + seconds second.

(** The time zone of the process.  [utcoffset z t] is the offset of local
    time from UTC in force at the instant [t]; [mktime z n] is the instant
    at which the local clock shows the naive date and time [n]
    (microseconds of local time from the epoch).  Both are the C
    library's; a zone with daylight saving has an offset that varies with
    its argument. *)
Record tzinfo := {
  utcoffset : datetime -> timedelta;
  mktime : Z -> datetime
}.

(** A zone with one offset the whole year. *)
Definition fixed_zone (offset : timedelta) : tzinfo :=
  {| utcoffset := fun _ => offset; mktime := fun n => n - offset |}.

(** [dt.astimezone()]: the local wall clock at the instant [dt], as naive
    microseconds of local time. *)
Definition wall_clock (z : tzinfo) (dt : datetime) : Z := dt + utcoffset z dt.

(** [dt.astimezone().date()] *)
Definition local_date (z : tzinfo) (dt : datetime) : date :=
  wall_clock z dt / usec_per_day.

(** [dt.astimezone().time()] *)
Definition local_time (z : tzinfo) (dt : datetime) : naive_time :=
  wall_clock z dt mod usec_per_day.

(** The calendar date of an instant in UTC, which is what
    [date.strftime("%Y-%m-%d")] prints for a UTC datetime. *)
Definition utc_date (dt : datetime) : date := dt / usec_per_day.

(** ** Floating point

    [timedelta.total_seconds()] divides two integers into a float, the
    script multiplies that float by the integer [1000] and [int]
    truncates the product toward zero.  A finite binary64 number is kept
    as the exact value [mantissa * 2 ^ exponent].  Python's division of
    integers and the product of two floats are correctly rounded, to the
    nearest number of 53 bits with ties to the even one; that is how
    [round_quotient] rounds.  The exponent is left unbounded, which is
    binary64 as long as no result leaves its range; no result on a
    [timedelta] does, a [timedelta] holding less than a thousand million
    days. *)

Record binary64 := {
  mantissa : Z;
  exponent : Z
}.

(** The quotient [n / d] divided by [2 ^ e], as a fraction. *)
Definition scaled (n d e : Z) : Z * Z :=
  if 0 <=? e then (n, d * 2 ^ e) else (n * 2 ^ (- e), d).

(** The integer nearest to [n / d], the even one of two that are as
    near; [d] is positive. *)
Definition round_half_even (n d : Z) : Z :=
  let q := n / d in
  let r := n mod d in
  if 2 * r <? d then q
  else if d <? 2 * r then q + 1
  else if Z.even q then q else q + 1.

(** The exponent [e] at which [n / d] has a mantissa of 53 bits:
    [2^52 <= (n / d) / 2^e < 2^53], for positive [n] and [d]. *)
Definition binade (n d : Z) : Z :=
  let c := Z.log2 n - Z.log2 d - 52 in
  let '(n1, d1) := scaled n d c in
  if n1 <? d1 * 2 ^ 52 then c - 1 else c.

Definition round_positive (n d : Z) : binary64 :=
  let e := binade n d in
  let '(n2, d2) := scaled n d e in
  {| mantissa := round_half_even n2 d2; exponent := e |}.

Definition fneg (x : binary64) : binary64 :=
  {| mantissa := - mantissa x; exponent := exponent x |}.

(** The float nearest to [n / d], for a positive [d]. *)
Definition round_quotient (n d : Z) : binary64 :=
  if n =? 0 then {| mantissa := 0; exponent := 0 |}
  else if 0 <? n then round_positive n d
  else fneg (round_positive (- n) d).

(** [float(k)] *)
Definition float_of_int (k : Z) : binary64 := round_quotient k 1.

(** [x * y] on floats: the exact product, rounded. *)
Definition fmul (x y : binary64) : binary64 :=
  let m := mantissa x * mantissa y in
  let e := exponent x + exponent y in
  if 0 <=? e then round_quotient (m * 2 ^ e) 1 else round_quotient m (2 ^ (- e)).

(** [int(x)] *)
Definition int_of_float (x : binary64) : Z :=
  if 0 <=? exponent x then mantissa x * 2 ^ exponent x
  else Z.quot (mantissa x) (2 ^ (- exponent x)).

(** [timedelta.total_seconds()]: the microseconds divided by [10**6]. *)
Definition total_seconds (d : timedelta) : binary64 :=
  round_quotient d usec_per_second.

(** ** Exceptions *)

Inductive exn :=
| IndexError
| TimeoutError
| KeyboardInterrupt
| TypeError
| ValueError
| KeyError
| ConnectionError
| JSONDecodeError
| AttributeError.

(** [except Exception] catches every class above but [KeyboardInterrupt],
    which derives from [BaseException] only. *)
Definition is_Exception (e : exn) : bool :=
  match e with
  | KeyboardInterrupt => false
  | _ => true
  end.

Inductive result (A : Type) :=
| Ok (a : A)
| Raise (e : exn).
Arguments Ok {A} a.
Arguments Raise {A} e.

(** ** Lamps, lamp states and timed events *)

Definition mac := Z.

(** A color is (hue, saturation, brightness, kelvin). *)
Definition color := (Z * Z * Z * Z)%type.

Definition color_eqb (a b : color) : bool :=
  let '(h1, s1, b1, k1) := a in
  let '(h2, s2, b2, k2) := b in
  (h1 =? h2) && (s1 =? s2) && (b1 =? b2) && (k1 =? k2).

(** A device of the network: what [dev.is_light()] answers, and what the
    device answers to [get_power] and [get_color].  [LifxLAN] makes a
    [Light] of a device that is a light and a plain [Device] of any
    other; [get_power] and [set_power] are methods of both, [get_color]
    and [set_color] of a [Light] only. *)
Record lamp := {
  is_light : bool;
  lamp_power : bool;
  lamp_color : color
}.

Definition POWER_ON : bool := true.
Definition POWER_OFF : bool := false.

Module LampState.
Record t := {
  name : string;
  power : bool;
  color : color
}.
End LampState.

Module TimeEvent.
Record t := {
  name : string;
  time : datetime;
  state : LampState.t;
  fade : timedelta
}.

(** [__lt__] *)
Definition lt (self other : t) : bool := time self <? time other.
End TimeEvent.

(** ** The sunrise-sunset service *)

Record request := {
  req_lat : float;
  req_lng : float;
  req_date : date
}.

(** A field of the ["results"] object: absent, present with text that
    [strptime] rejects, or a timestamp. *)
Inductive field :=
| Missing
| Unparsable
| Stamp (t : datetime).

(** What comes back from [requests.get(url).json()["results"]]: no
    connection, a body that is not JSON (an error page), JSON without
    ["results"], or the results. *)
Inductive reply :=
| Unreachable
| NotJSON
| NoResults
| Results (sunrise sunset : field).

(** ** The world *)

Inductive message :=
| Text (s : string)
| Exn (e : exn)
| TimedEvent (name : string) (local : Z) (state_name : string).

Inductive effect :=
| HttpGet (r : request)
| Sleep (d : timedelta)
| Print (m : message)
| GetPower (dev : mac)
| GetColor (dev : mac)
| SetPower (dev : mac) (p : bool)
| SetColor (dev : mac) (c : color)
| GroupSetPower (group : list mac) (on : bool) (duration_ms : Z)
| GroupSetColor (group : list mac) (c : color) (duration_ms : Z).

(** [sigint] is the interrupt of the operator, when one is on its way:
    [Some n] delivers [KeyboardInterrupt] at the effect that follows the
    next [n] ones. *)
Record world := {
  clock : datetime;
  tz : tzinfo;
  sigint : option nat;
  service : request -> reply;
  lamps : mac -> lamp;
  timeline : list TimeEvent.t;
  trace : list effect
}.

Definition set_clock (c : datetime) (w : world) : world :=
  {| clock := c; tz := tz w; sigint := sigint w; service := service w;
     lamps := lamps w; timeline := timeline w; trace := trace w |}.

Definition set_sigint (s : option nat) (w : world) : world :=
  {| clock := clock w; tz := tz w; sigint := s; service := service w;
     lamps := lamps w; timeline := timeline w; trace := trace w |}.

Definition set_lamps (l : mac -> lamp) (w : world) : world :=
  {| clock := clock w; tz := tz w; sigint := sigint w; service := service w;
     lamps := l; timeline := timeline w; trace := trace w |}.

Definition set_timeline (t : list TimeEvent.t) (w : world) : world :=
  {| clock := clock w; tz := tz w; sigint := sigint w; service := service w;
     lamps := lamps w; timeline := t; trace := trace w |}.

Definition log (e : effect) (w : world) : world :=
  {| clock := clock w; tz := tz w; sigint := sigint w; service := service w;
     lamps := lamps w; timeline := timeline w; trace := trace w ++ [e] |}.

(** ** The monad *)

Definition M (A : Type) : Type := world -> result A * world.

Definition ret {A} (a : A) : M A := fun w => (Ok a, w).

Definition bind {A B} (m : M A) (k : A -> M B) : M B :=
  fun w =>
    match m w with
    | (Ok a, w') => k a w'
    | (Raise e, w') => (Raise e, w')
    end.

Definition raise {A} (e : exn) : M A := fun w => (Raise e, w).

Definition gets {A} (f : world -> A) : M A := fun w => (Ok (f w), w).

Definition modify (f : world -> world) : M unit := fun w => (Ok tt, f w).

Declare Scope py_scope.
Delimit Scope py_scope with py.
Notation "x <- m ;; k" := (bind m (fun x => k))
  (at level 100, m at next level, right associativity) : py_scope.
Notation "m ;; k" := (bind m (fun _ => k))
  (at level 100, right associativity) : py_scope.
Open Scope py_scope.

(** [try: body except ...: handler].  [handlers e] is the body of the
    first clause that matches [e], if one does.  An exception that the
    handler raises leaves the statement: the clauses of a [try] guard its
    body, not one another. *)
Definition try_except {A} (body : M A) (handlers : exn -> option (M A)) : M A :=
  fun w =>
    match body w with
    | (Ok a, w') => (Ok a, w')
    | (Raise e, w') =>
        match handlers e with
        | Some handler => handler w'
        | None => (Raise e, w')
        end
    end.

(** Where a pending interrupt is delivered. *)
Definition checkpoint : M unit :=
  fun w =>
    match sigint w with
    | None => (Ok tt, w)
    | Some O => (Raise KeyboardInterrupt, set_sigint None w)
    | Some (S n) => (Ok tt, set_sigint (Some n) w)
    end.

Definition perform (e : effect) : M unit :=
  checkpoint ;; modify (log e).

Definition print (m : message) : M unit := perform (Print m).

(** [time.sleep(secs)]: refuses a negative length, and otherwise lets the
    clock advance by the length asked for, which is the least a sleep
    takes.  The trace keeps the length as the [timedelta] whose
    [total_seconds()] the script passes. *)
Definition sleep (d : timedelta) : M unit :=
  if d <? 0 then raise ValueError
  else perform (Sleep d) ;; modify (fun w => set_clock (clock w + d) w).

(** ** Time utilities *)

(** [utc_now] *)
Definition utc_now : M datetime := checkpoint ;; gets clock.

(** What the script passes as the [date] of [utc_datetime]: a date, or
    the method [date] of a local datetime, bound and not called. *)
Inductive date_arg :=
| DateObject (d : date)
| DateMethod (self : Z).

(** [datetime.combine(date, time)] takes a [datetime.date] as its first
    argument and raises [TypeError] on anything else; the naive datetime
    it builds counts local microseconds from the epoch. *)
Definition datetime_combine (d : date_arg) (t : naive_time) : M Z :=
  match d with
  | DateObject d => ret (d * usec_per_day + t)
  | DateMethod _ => raise TypeError
  end.

(** [utc_datetime]: [astimezone] reads a naive datetime as local time. *)
Definition utc_datetime (d : date_arg) (t : naive_time) : M datetime :=
  naive <- datetime_combine d t ;;
  z <- gets tz ;;
  ret (mktime z naive).

(** [timeout and ...]: [None] and [timedelta(0)] are both false. *)
Definition truthy (timeout : option timedelta) : bool :=
  match timeout with
  | None => false
  | Some d => negb (d =? 0)
  end.

(** [sleep_until] *)
Definition sleep_until (then_ : datetime) (timeout : option timedelta) : M unit :=
  now <- utc_now ;;
  let wait_time := then_ - now in
  (match timeout with
   | Some d =>
       if truthy timeout && (d <? wait_time)
       then sleep d ;; raise TimeoutError
       else ret tt
   | None => ret tt
   end) ;;
  if 0 <? wait_time then sleep wait_time else ret tt.

(** ** The sunset oracle *)

(** [payload[key]] followed by [datetime.strptime] *)
Definition parse_field (f : field) : M datetime :=
  match f with
  | Missing => raise KeyError
  | Unparsable => raise ValueError
  | Stamp t => ret t
  end.

(** The query of the URL: [lat], [lng] and the date of the instant as
    [strftime("%Y-%m-%d")] prints it. *)
Definition request_for (lat lng : float) (at_ : datetime) : request :=
  {| req_lat := lat; req_lng := lng; req_date := utc_date at_ |}.

(** [request_sunrise_sunset] *)
Definition request_sunrise_sunset (lat lng : float) (date : datetime)
  : M (datetime * datetime) :=
  let r := request_for lat lng date in
  perform (HttpGet r) ;;
  answer <- gets (fun w => service w r) ;;
  match answer with
  | Unreachable => raise ConnectionError
  | NotJSON => raise JSONDecodeError
  | NoResults => raise KeyError
  | Results f_sunrise f_sunset =>
      sunrise <- parse_field f_sunrise ;;
      sunset <- parse_field f_sunset ;;
      ret (sunrise, sunset)
  end.

(** [get_sunset_or_default].  The handler binds [local_date] to
    [date.astimezone().date], the method itself. *)
Definition get_sunset_or_default (lat lng : float) (date : datetime) : M datetime :=
  try_except
    (p <- request_sunrise_sunset lat lng date ;;
     ret (snd p))
    (fun e =>
       if is_Exception e then
         Some (print (Text "warning: exception raised while requesting sunrise-sunset") ;;
               print (Exn e) ;;
               z <- gets tz ;;
               let local_date := DateMethod (wall_clock z date) in
               let local_time := _time 18 0 0 in
               utc_datetime local_date local_time)
       else None).

(** [next_sunset] *)
Definition next_sunset (lat lng : float) : M datetime :=
  now <- utc_now ;;
  sunset <- get_sunset_or_default lat lng now ;;
  if now <? sunset then ret sunset
  else get_sunset_or_default lat lng (now + days 1).

(** ** Commands to the lamps *)

Definition with_power (p : bool) (l : lamp) : lamp :=
  {| is_light := is_light l; lamp_power := p; lamp_color := lamp_color l |}.

Definition with_color (c : color) (l : lamp) : lamp :=
  {| is_light := is_light l; lamp_power := lamp_power l; lamp_color := c |}.

Definition update (dev : mac) (f : lamp -> lamp) (ls : mac -> lamp) : mac -> lamp :=
  fun m => if m =? dev then f (ls m) else ls m.

Definition update_all (group : list mac) (f : lamp -> lamp) (ls : mac -> lamp)
  : mac -> lamp :=
  fun m => if existsb (Z.eqb m) group then f (ls m) else ls m.

(** [dev.get_power()], [dev.get_color()], [dev.set_power(p)],
    [dev.set_color(c)].  On a device that is not a light the attribute
    [get_color], or [set_color], is looked up and not found: the call
    raises [AttributeError] and nothing is sent. *)
Definition get_power (dev : mac) : M bool :=
  perform (GetPower dev) ;; gets (fun w => lamp_power (lamps w dev)).

Definition get_color (dev : mac) : M color :=
  light <- gets (fun w => is_light (lamps w dev)) ;;
  if light then
    perform (GetColor dev) ;; gets (fun w => lamp_color (lamps w dev))
  else raise AttributeError.

Definition set_power (dev : mac) (p : bool) : M unit :=
  perform (SetPower dev p) ;;
  modify (fun w => set_lamps (update dev (with_power p) (lamps w)) w).

Definition set_color (dev : mac) (c : color) : M unit :=
  light <- gets (fun w => is_light (lamps w dev)) ;;
  if light then
    perform (SetColor dev c) ;;
    modify (fun w => set_lamps (update dev (with_color c) (lamps w)) w)
  else raise AttributeError.

(** [group.set_power(power, duration)], [group.set_color(color, duration)] *)
Definition group_set_power (group : list mac) (on : bool) (duration_ms : Z) : M unit :=
  perform (GroupSetPower group on duration_ms) ;;
  modify (fun w => set_lamps (update_all group (with_power on) (lamps w)) w).

Definition group_set_color (group : list mac) (c : color) (duration_ms : Z) : M unit :=
  perform (GroupSetColor group c duration_ms) ;;
  modify (fun w => set_lamps (update_all group (with_color c) (lamps w)) w).

(** [int(1000 * duration.total_seconds())] *)
Definition duration_ms (duration : timedelta) : Z :=
  int_of_float (fmul (float_of_int 1000) (total_seconds duration)).

(** The pause of [time.sleep(0.25)]. *)
Definition settle : timedelta := 250000.

Module LampStateOps.
Import LampState.

(** [LampState.apply] *)
Definition apply (self : LampState.t) (lights : list mac) (duration : timedelta)
  : M unit :=
  let ms := duration_ms duration in
  if power self then
    group_set_power lights true ms ;;
    sleep settle ;;
    group_set_color lights (color self) ms
  else
    group_set_color lights (color self) ms ;;
    sleep settle ;;
    group_set_power lights false ms.

(** [LampState.equals] *)
Definition equals (self other : LampState.t) : bool :=
  Bool.eqb (power self) (power other) && color_eqb (color self) (color other).
End LampStateOps.

Module TimeEventOps.
Import TimeEvent.

(** [TimeEvent.print] *)
Definition print (self : TimeEvent.t) : M unit :=
  z <- gets tz ;;
  print (TimedEvent (name self) (wall_clock z (time self))
           (LampState.name (state self))).

(** [TimeEvent.trigger]; [not fade] holds of [None] and of a zero
    [timedelta]. *)
Definition trigger (self : TimeEvent.t) (lights : list mac)
  (fade_arg : option timedelta) : M unit :=
  print self ;;
  let fade :=
    match fade_arg with
    | Some d => if d =? 0 then fade self else d
    | None => fade self
    end in
  LampStateOps.apply (state self) lights fade.
End TimeEventOps.

(** ** The timeline *)

(** [list.sort()] is stable and compares with [__lt__] only: an element
    goes before the first one that is greater, so after those that came
    earlier with the same time. *)
Fixpoint insort (ev : TimeEvent.t) (l : list TimeEvent.t) : list TimeEvent.t :=
  match l with
  | [] => [ev]
  | x :: rest =>
      if TimeEvent.lt ev x then ev :: x :: rest else x :: insort ev rest
  end.

Definition sort (l : list TimeEvent.t) : list TimeEvent.t :=
  fold_left (fun sorted ev => insort ev sorted) l [].

Module Timeline.
(** [Timeline.insert]: [append], then [sort]. *)
Definition insert (ev : TimeEvent.t) : M unit :=
  modify (fun w => set_timeline (timeline w ++ [ev]) w) ;;
  modify (fun w => set_timeline (sort (timeline w)) w).

(** [self.timeline[0]] *)
Definition first : M TimeEvent.t :=
  tl <- gets timeline ;;
  match tl with
  | [] => raise IndexError
  | ev :: _ => ret ev
  end.

(** [self.timeline.pop(0)] *)
Definition pop0 : M TimeEvent.t :=
  tl <- gets timeline ;;
  match tl with
  | [] => raise IndexError
  | ev :: rest => modify (set_timeline rest) ;; ret ev
  end.

(** [Timeline.pop] *)
Definition pop (timeout : option timedelta) : M TimeEvent.t :=
  head <- first ;;
  let next_event := TimeEvent.time head in
  sleep_until next_event timeout ;;
  pop0.

(** [Timeline.print] *)
Fixpoint print_all (evs : list TimeEvent.t) : M unit :=
  match evs with
  | [] => ret tt
  | ev :: rest => TimeEventOps.print ev ;; print_all rest
  end.

Definition print : M unit :=
  tl <- gets timeline ;;
  print_all tl.
End Timeline.

(** ** Saving and restoring the lamps *)

(** An entry of [saved_states]: (mac address, power, color). *)
Definition saved_state := (mac * bool * color)%type.

Definition saved_mac (s : saved_state) : mac := fst (fst s).
Definition saved_power (s : saved_state) : bool := snd (fst s).
Definition saved_color (s : saved_state) : color := snd s.

(** [save_current_states] *)
Fixpoint save_current_states (devices : list mac) : M (list saved_state) :=
  match devices with
  | [] => ret []
  | dev :: rest =>
      p <- get_power dev ;;
      c <- get_color dev ;;
      saved <- save_current_states rest ;;
      ret ((dev, p, c) :: saved)
  end.

(** [saved_states[i]] *)
Definition index {A} (l : list A) (i : nat) : M A :=
  match nth_error l i with
  | Some a => ret a
  | None => raise IndexError
  end.

(** The loop of [reset_device_states], from the index [i] on. *)
Fixpoint reset_from (i : nat) (devices : list mac) (saved_states : list saved_state)
  : M unit :=
  match devices with
  | [] => ret tt
  | dev :: rest =>
      saved <- index saved_states i ;;
      cur_power <- get_power dev ;;
      cur_color <- get_color dev ;;
      (if negb (Bool.eqb cur_power (saved_power saved))
       then set_power dev (saved_power saved) else ret tt) ;;
      (if negb (color_eqb cur_color (saved_color saved))
       then set_color dev (saved_color saved) else ret tt) ;;
      reset_from (S i) rest saved_states
  end.

(** [reset_device_states] *)
Definition reset_device_states (devices : list mac) (saved_states : list saved_state)
  : M unit :=
  reset_from 0 devices saved_states.

(** ** The daily schedule *)

Definition COLOR_NIGHT_LIGHT : color := (8402, 0, 49151, 2000).
Definition COLOR_NEUTRAL_LIGHT : color := (8402, 0, 65535, 3500).
Definition SUNSET_OFFSET : timedelta := minutes (-30).
Definition TRANSITION_DURATION : timedelta := minutes 5.
#[warnings="-inexact-float"]
Definition LATITUDE : float := 45.42178%float.
#[warnings="-inexact-float"]
Definition LONGITUDE : float := (-75.69119)%float.

Definition state_evening : LampState.t :=
  {| LampState.name := "Evening Lights"; LampState.power := POWER_ON;
     LampState.color := COLOR_NEUTRAL_LIGHT |}.
Definition state_night : LampState.t :=
  {| LampState.name := "Night Lights"; LampState.power := POWER_ON;
     LampState.color := COLOR_NIGHT_LIGHT |}.
Definition state_off : LampState.t :=
  {| LampState.name := "Lights Off"; LampState.power := POWER_OFF;
     LampState.color := COLOR_NIGHT_LIGHT |}.

Definition event (name : string) (time_utc : datetime) (state : LampState.t)
  (fade : timedelta) : TimeEvent.t :=
  {| TimeEvent.name := name; TimeEvent.time := time_utc;
     TimeEvent.state := state; TimeEvent.fade := fade |}.

(** [fill_timeline] *)
Definition fill_timeline : M unit :=
  let fade := TRANSITION_DURATION in
  sunset <- next_sunset LATITUDE LONGITUDE ;;
  z <- gets tz ;;
  let local_date := DateObject (local_date z sunset) in
  let evening := sunset + SUNSET_OFFSET in
  Timeline.insert (event "Evening" evening state_evening fade) ;;
  nighttime <- utc_datetime local_date (_time 21 0 0) ;;
  Timeline.insert (event "Nightime" nighttime state_night fade) ;;
  let lightsoff := nighttime + hours 3 in
  Timeline.insert (event "Lights Off" lightsoff state_off fade) ;;
  print (Text "Queued events:") ;;
  Timeline.print ;;
  print (Text "--").

(** ** The scheduler loop *)

Inductive loop_status :=
| Continue
| Break.

(** One turn of the [while True] of [main]. *)
Definition turn (ctrl_group devices : list mac) (saved_states : list saved_state)
  : M loop_status :=
  try_except
    (ev <- Timeline.pop None ;;
     TimeEventOps.trigger ev ctrl_group None ;;
     ret Continue)
    (fun e =>
       match e with
       | IndexError => Some (fill_timeline ;; ret Continue)
       | TimeoutError => Some (ret Continue)
       | KeyboardInterrupt =>
           Some (reset_device_states devices saved_states ;; ret Break)
       | _ => None
       end).

Inductive run_status :=
| Running
| Exited.

(** The loop, cut after [fuel] turns: [Exited] when it left by [break],
    [Running] when the turns are used up. *)
Fixpoint main_loop (fuel : nat) (ctrl_group devices : list mac)
  (saved_states : list saved_state) : M run_status :=
  match fuel with
  | O => ret Running
  | S fuel' =>
      s <- turn ctrl_group devices saved_states ;;
      match s with
      | Continue => main_loop fuel' ctrl_group devices saved_states
      | Break => ret Exited
      end
  end.

(** [main], from the point where the lamps have been discovered:
    [devices] is the device list of the control group. *)
Definition main (fuel : nat) (devices : list mac) : M run_status :=
  saved_states <- save_current_states devices ;;
  modify (set_timeline []) ;;
  print (Text "Running...") ;;
  main_loop fuel devices devices saved_states.

(** ** Vocabulary of the properties *)



Definition earlier (a b : TimeEvent.t) : Prop := TimeEvent.time a <= TimeEvent.time b.

(** Ascending times, every event compared with all that follow it. *)
Inductive ascending : list TimeEvent.t -> Prop :=
| ascending_nil : ascending []
| ascending_cons ev l :
    Forall (earlier ev) l -> ascending l -> ascending (ev :: l).

(** A sequence of calls on the timeline, by a caller that catches what
    [pop] raises, as [main] does. *)
Inductive call :=
| Insert (ev : TimeEvent.t)
| Pop (timeout : option timedelta).

Definition do_call (c : call) (w : world) : world :=
  match c with
  | Insert ev => snd (Timeline.insert ev w)
  | Pop timeout => snd (Timeline.pop timeout w)
  end.

Definition do_calls (cs : list call) (w : world) : world :=
  fold_left (fun w c => do_call c w) cs w.

(** Code that leaves the timeline, and the time zone, as it found them,
    whether it returns or raises. *)
Definition keeps_timeline {A} (m : M A) : Prop :=
  forall w, timeline (snd (m w)) = timeline w /\ tz (snd (m w)) = tz w.

(** Two worlds that differ in the pending interrupt at most. *)
Definition same_but_sigint (w w' : world) : Prop :=
  clock w' = clock w /\ trace w' = trace w /\ timeline w' = timeline w /\
  lamps w' = lamps w /\ tz w' = tz w /\ service w' = service w.

(** The commands of a trace that change a lamp. *)
Definition is_set_command (e : effect) : bool :=
  match e with
  | SetPower _ _ | SetColor _ _ | GroupSetPower _ _ _ | GroupSetColor _ _ _ => true
  | _ => false
  end.

Definition set_commands (tr : list effect) : list effect :=
  filter is_set_command tr.

(** What one turn of the loop of [reset_device_states] sends to the lamp
    it handles, given what the lamp answered. *)
Definition restore_commands (cur : mac -> lamp) (p : mac * saved_state) : list effect :=
  let '(dev, s) := p in
  (if Bool.eqb (lamp_power (cur dev)) (saved_power s) then []
   else [SetPower dev (saved_power s)]) ++
  (if color_eqb (lamp_color (cur dev)) (saved_color s) then []
   else [SetColor dev (saved_color s)]).

(** The commands of a trace that are sent to the lamp [dev] itself. *)
Definition is_command_to (dev : mac) (e : effect) : bool :=
  match e with
  | SetPower d _ | SetColor d _ => d =? dev
  | _ => false
  end.

Definition commands_to (dev : mac) (tr : list effect) : list effect :=
  filter (is_command_to dev) tr.

(** The power and the color of a saved entry, without its address. *)
Definition saved_fields (s : saved_state) : bool * color :=
  (saved_power s, saved_color s).

(** The light a saved entry describes. *)
Definition lamp_of_saved (s : saved_state) : lamp :=
  {| is_light := true; lamp_power := saved_power s; lamp_color := saved_color s |}.

(** Every device of the list is a light. *)
Definition all_lights (w : world) (devices : list mac) : Prop :=
  forall d, In d devices -> is_light (lamps w d) = true.

(** The value a run returned, or [default] when it raised. *)
Definition fst_ok {A} (default : A) (r : result A * world) : A :=
  match fst r with
  | Ok a => a
  | Raise _ => default
  end.

(** A reply that gives both timestamps. *)
Definition usable (r : reply) : bool :=
  match r with
  | Results (Stamp _) (Stamp _) => true
  | _ => false
  end.

(** The three events of a day, for the sunset [sunset] in the zone [z]. *)
Definition evening_event (sunset : datetime) : TimeEvent.t :=
  event "Evening" (sunset + SUNSET_OFFSET) state_evening TRANSITION_DURATION.

Definition nighttime_event (z : tzinfo) (sunset : datetime) : TimeEvent.t :=
  event "Nightime"
    (mktime z (local_date z sunset * usec_per_day + _time 21 0 0))
    state_night TRANSITION_DURATION.

Definition lightsoff_event (z : tzinfo) (sunset : datetime) : TimeEvent.t :=
  event "Lights Off" (TimeEvent.time (nighttime_event z sunset) + hours 3)
    state_off TRANSITION_DURATION.

(** ** Sample worlds *)

(** A light that is off. *)
Definition dark : lamp :=
  {| is_light := true; lamp_power := false; lamp_color := (0, 0, 0, 0) |}.

(** A device that is not a light, a switch for one. *)
Definition plug : lamp :=
  {| is_light := false; lamp_power := true; lamp_color := (0, 0, 0, 0) |}.

(** A process in a zone four hours behind UTC at the instant [now], no
    interrupt on its way, every device a light that is off and the
    timeline empty. *)
Definition sample_world (now : datetime) (answers : request -> reply) : world :=
  {| clock := now; tz := fixed_zone (hours (-4)); sigint := None;
     service := answers; lamps := fun _ => dark; timeline := []; trace := [] |}.

Definition sample_event (name : string) (at_ : datetime) : TimeEvent.t :=
  event name at_ state_night (seconds 4).

(** A service that answers every request with the same two timestamps,
    whatever the date asked for. *)
Definition always (sunrise sunset : datetime) : request -> reply :=
  fun _ => Results (Stamp sunrise) (Stamp sunset).

(** Lamp 1 lit and every other lamp off. *)
Definition one_lit (now : datetime) : world :=
  set_lamps
    (update 1 (fun _ => {| is_light := true; lamp_power := true;
                           lamp_color := COLOR_NEUTRAL_LIGHT |})
       (fun _ => dark))
    (sample_world now (fun _ => Unreachable)).

(** A process three hours behind UTC, at noon UTC of the first day, that
    is told a sunset of 00:54 UTC of the next day: 21:54 on its clock. *)
Definition late_sunset_world : world :=
  {| clock := hours 12; tz := fixed_zone (hours (-3)); sigint := None;
     service := always (hours 9) (hours 24 + minutes 54);
     lamps := fun _ => dark; timeline := []; trace := [] |}.

(** ** Discovery and startup

    The head of [main], up to the point where [save_current_states] is
    called.  The network is what [LifxLAN] finds on it: the devices of a
    group label and the device of a name.  A device is known by its mac
    address, which is what [already_in_group] compares. *)

Record LifxLAN := {
  get_devices_by_group : string -> list mac;
  get_device_by_name : string -> option mac
}.

(** [already_in_group] *)
Definition already_in_group (device : mac) (group : list mac) : bool :=
  existsb (Z.eqb device) group.

(** [group.add_device(dev)] *)
Definition add_device (dev : mac) (group : list mac) : list mac := group ++ [dev].

(** [for dev in devices: if not already_in_group(dev, ctrl_group): ...] *)
Fixpoint add_devices (devices : list mac) (ctrl_group : list mac) : list mac :=
  match devices with
  | [] => ctrl_group
  | dev :: rest =>
      add_devices rest
        (if already_in_group dev ctrl_group then ctrl_group
         else add_device dev ctrl_group)
  end.

(** [for label in labels: ...] *)
Fixpoint collect (lan : LifxLAN) (labels : list string) (ctrl_group : list mac)
  : M (list mac) :=
  match labels with
  | [] => ret ctrl_group
  | label :: rest =>
      let devices := get_devices_by_group lan label in
      if (0 <? List.length devices)%nat then
        collect lan rest (add_devices devices ctrl_group)
      else
        match get_device_by_name lan label with
        | Some dev =>
            collect lan rest
              (if already_in_group dev ctrl_group then ctrl_group
               else add_device dev ctrl_group)
        | None =>
            print (Text ("No devices found matching label '" ++ label ++ "'")) ;;
            collect lan rest ctrl_group
        end
  end.

(** How the head of [main] ends: [exit(code)], or the loop is entered
    with the devices of the control group. *)
Inductive started :=
| Exit (code : Z)
| Ready (devices : list mac).

(** [str(len(devices))] *)
Definition str_of_nat (n : nat) : string := NilZero.string_of_uint (Nat.to_uint n).

(** The two lines of the usage; each ends with the newline of its
    literal. *)
Definition newline : string := String (Ascii.ascii_of_nat 10) EmptyString.

Definition usage_head : string :=
  "Provide names for the lights and/or groups to control:" ++ newline.

Definition usage_line : string :=
  "  ./evening-lights.py [light_name] [group_name]" ++ newline.

(** The head of [main]; [argv] is [sys.argv]. *)
Definition startup (lan : LifxLAN) (argv : list string) : M started :=
  if (List.length argv <? 2)%nat then
    print (Text usage_head) ;;
    print (Text usage_line) ;;
    ret (Exit 1)
  else
    print (Text "Discovering lights...") ;;
    let labels := tl argv in
    devices <- collect lan labels [] ;;
    print (Text ("Found " ++ str_of_nat (List.length devices) ++ " device(s)")) ;;
    if (List.length devices =? 0)%nat then ret (Exit 1)
    else
      lights <- gets (fun w => filter (fun dev => is_light (lamps w dev)) devices) ;;
      if (List.length lights =? 0)%nat then
        print (Text "None of the devices found are lights") ;;
        ret (Exit 1)
      else ret (Ready devices).

(** The devices a label stands for: those of the group of that name, or
    when there are none the device of that name. *)
Definition found (lan : LifxLAN) (label : string) : list mac :=
  match get_devices_by_group lan label with
  | [] =>
      match get_device_by_name lan label with
      | Some dev => [dev]
      | None => []
      end
  | devices => devices
  end.

(** The lines [Timeline.print] writes for a list of events. *)
Definition event_line (z : tzinfo) (ev : TimeEvent.t) : effect :=
  Print (TimedEvent (TimeEvent.name ev) (wall_clock z (TimeEvent.time ev))
           (LampState.name (TimeEvent.state ev))).

(** The commands of a trace that [reset_device_states] sends: those to a
    single device. *)
Definition is_restore_command (e : effect) : bool :=
  match e with
  | SetPower _ _ | SetColor _ _ => true
  | _ => false
  end.

Definition restore_commands_of (tr : list effect) : list effect :=
  filter is_restore_command tr.

(** Code that, run with no interrupt on its way, ends with none on its
    way, does not raise [KeyboardInterrupt] and sends no command of the
    restore routine. *)
Definition uninterrupted {A} (m : M A) : Prop :=
  forall w, sigint w = None ->
            sigint (snd (m w)) = None /\
            fst (m w) <> Raise KeyboardInterrupt /\
            restore_commands_of (trace (snd (m w))) = restore_commands_of (trace w).

(** A network with a group of two lamps, a lamp with a name and a plug. *)
Definition sample_lan : LifxLAN :=
  {| get_devices_by_group := fun l => if String.eqb l "living" then [1; 2] else [];
     get_device_by_name :=
       fun l => if String.eqb l "desk" then Some 2
                else if String.eqb l "plug" then Some 9 else None |}.

(** The world of that network: device 9 is the plug. *)
Definition with_plug (w : world) : world :=
  set_lamps (update 9 (fun _ => plug) (lamps w)) w.

(** The whole of [main]: how the script ends, or how far the loop went. *)
Inductive ended :=
| Exit_code (code : Z)
| Loop (s : run_status).

Definition script (lan : LifxLAN) (argv : list string) (fuel : nat) : M ended :=
  s <- startup lan argv ;;
  match s with
  | Exit code => ret (Exit_code code)
  | Ready devices => r <- main fuel devices ;; ret (Loop r)
  end.

(** What follows a run: the continuation on the value returned, or the
    exception raised. *)
Definition and_then {A B} (r : result A * world) (k : A -> M B) : result B * world :=
  match r with
  | (Ok a, w) => k a w
  | (Raise e, w) => (Raise e, w)
  end.
(** * Properties *)

(** ** The timeline stays sorted *)

Create HintDb timeline.
#[local] Hint Constructors ascending : timeline.

Lemma insort_perm ev l : Permutation (insort ev l) (ev :: l).
Proof.
  induction l as [|x rest IH]; simpl.
  - apply Permutation_refl.
  - destruct (TimeEvent.lt ev x).
    + apply Permutation_refl.
    + apply perm_trans with (x :: ev :: rest).
      * now apply perm_skip.
      * apply perm_swap.
Qed.

Lemma insort_ascending ev l : ascending l -> ascending (insort ev l).
Proof.
  induction 1 as [|x rest Hx Hrest IH]; simpl.
  - constructor; auto with timeline.
  - unfold TimeEvent.lt. destruct (Z.ltb_spec (TimeEvent.time ev) (TimeEvent.time x)) as [Hlt|Hge].
    + constructor; [|auto with timeline].
      constructor; [unfold earlier; lia|].
      eapply Forall_impl; [|exact Hx].
      unfold earlier; intros; lia.
    + constructor; [|exact IH].
      apply (Permutation_Forall (Permutation_sym (insort_perm ev rest))).
      constructor; [exact Hge|exact Hx].
Qed.

Lemma fold_insort_ascending l acc :
  ascending acc -> ascending (fold_left (fun sorted ev => insort ev sorted) l acc).
Proof.
  revert acc. induction l as [|x rest IH]; intros acc Hacc; simpl; [exact Hacc|].
  apply IH, insort_ascending, Hacc.
Qed.

Lemma fold_insort_perm l acc :
  Permutation (fold_left (fun sorted ev => insort ev sorted) l acc) (acc ++ l).
Proof.
  revert acc. induction l as [|x rest IH]; intros acc; simpl.
  - rewrite app_nil_r. apply Permutation_refl.
  - eapply perm_trans; [apply IH|].
    eapply perm_trans; [apply Permutation_app_tail, insort_perm|].
    simpl. apply Permutation_middle.
Qed.

Lemma sort_ascending l : ascending (sort l).
Proof. apply fold_insort_ascending. constructor. Qed.

Lemma sort_perm l : Permutation (sort l) l.
Proof. apply (fold_insort_perm l []). Qed.

(** [insert] always succeeds, touches the timeline only, adds its event
    to the ones queued and leaves the timeline sorted. *)
Lemma insert_spec ev w :
  exists w',
    Timeline.insert ev w = (Ok tt, w') /\
    Permutation (timeline w') (ev :: timeline w) /\
    ascending (timeline w') /\
    clock w' = clock w /\ trace w' = trace w /\ sigint w' = sigint w /\
    tz w' = tz w /\ lamps w' = lamps w /\ service w' = service w.
Proof.
  eexists. split; [reflexivity|]. simpl. repeat split.
  - eapply perm_trans; [apply sort_perm|].
    apply Permutation_sym, Permutation_cons_append.
  - apply sort_ascending.
Qed.

Lemma keeps_ret {A} (a : A) : keeps_timeline (ret a).
Proof. intro w. split; reflexivity. Qed.

Lemma keeps_raise {A} e : keeps_timeline (@raise A e).
Proof. intro w. split; reflexivity. Qed.

Lemma keeps_gets {A} (f : world -> A) : keeps_timeline (gets f).
Proof. intro w. split; reflexivity. Qed.

Lemma keeps_bind {A B} (m : M A) (k : A -> M B) :
  keeps_timeline m -> (forall a, keeps_timeline (k a)) -> keeps_timeline (bind m k).
Proof.
  intros Hm Hk w. unfold bind. specialize (Hm w).
  destruct (m w) as [[a|e] w1]; simpl in *.
  - destruct (Hk a w1) as [Ht Hz]. destruct Hm as [Ht' Hz']. split; congruence.
  - exact Hm.
Qed.

Lemma keeps_checkpoint : keeps_timeline checkpoint.
Proof.
  intro w. unfold checkpoint. destruct (sigint w) as [[|n]|]; split; reflexivity.
Qed.

Lemma keeps_perform e : keeps_timeline (perform e).
Proof.
  apply keeps_bind; [apply keeps_checkpoint|]. intros _ w. split; reflexivity.
Qed.

Lemma keeps_sleep d : keeps_timeline (sleep d).
Proof.
  unfold sleep. destruct (d <? 0); [apply keeps_raise|].
  apply keeps_bind; [apply keeps_perform|]. intros _ w. split; reflexivity.
Qed.

#[local] Hint Resolve keeps_ret keeps_raise keeps_gets keeps_checkpoint
  keeps_perform keeps_sleep : timeline.

Lemma keeps_sleep_until t timeout : keeps_timeline (sleep_until t timeout).
Proof.
  unfold sleep_until, utc_now.
  apply keeps_bind; [apply keeps_bind; auto with timeline|].
  intros now. apply keeps_bind.
  - destruct timeout as [d|]; [|auto with timeline].
    destruct (truthy (Some d) && (d <? t - now)); [|auto with timeline].
    apply keeps_bind; auto with timeline.
  - intros _. destruct (0 <? t - now); auto with timeline.
Qed.

(** ** What the primitives change *)

Lemma same_but_sigint_refl w : same_but_sigint w w.
Proof. repeat split. Qed.

Lemma checkpoint_ok w w' :
  checkpoint w = (Ok tt, w') -> same_but_sigint w w'.
Proof.
  unfold checkpoint. destruct (sigint w) as [[|n]|]; intros H; inversion H; subst;
    repeat split.
Qed.

Lemma checkpoint_quiet w : sigint w = None -> checkpoint w = (Ok tt, w).
Proof. intros H. unfold checkpoint. now rewrite H. Qed.

Lemma utc_now_ok w now w' :
  utc_now w = (Ok now, w') -> now = clock w /\ same_but_sigint w w'.
Proof.
  unfold utc_now, bind, gets.
  destruct (checkpoint w) as [[[]|e] w1] eqn:Hc; intros H; inversion H; subst.
  apply checkpoint_ok in Hc. split; [apply (proj1 Hc)|exact Hc].
Qed.

Lemma sleep_ok d w w' :
  sleep d w = (Ok tt, w') ->
  0 <= d /\ clock w' = clock w + d /\ trace w' = trace w ++ [Sleep d] /\
  timeline w' = timeline w.
Proof.
  unfold sleep. destruct (Z.ltb_spec d 0) as [Hneg|Hpos]; [discriminate|].
  unfold perform, bind, modify.
  destruct (checkpoint w) as [[[]|e] w1] eqn:Hc; intros H; inversion H; subst.
  apply checkpoint_ok in Hc. destruct Hc as (Hclock & Htrace & Htl & _).
  simpl. rewrite Hclock, Htrace, Htl. repeat split; assumption.
Qed.

(** [sleep_until] returns no earlier than [then_], and at once when
    [then_] is not in the future. *)
Lemma sleep_until_ok t timeout w w' :
  sleep_until t timeout w = (Ok tt, w') ->
  timeline w' = timeline w /\ t <= clock w' /\
  (t <= clock w -> clock w' = clock w /\ trace w' = trace w).
Proof.
  unfold sleep_until. unfold bind at 1.
  destruct (utc_now w) as [[now|e] w1] eqn:Hnow; [|discriminate].
  apply utc_now_ok in Hnow. destruct Hnow as (-> & Hclock & Htrace & Htl & _).
  unfold bind at 1.
  set (guard := match timeout with Some d => _ | None => _ end).
  assert (Hguard : forall w2, guard w1 = (Ok tt, w2) -> w2 = w1).
  { intros w2. subst guard. destruct timeout as [d|].
    - destruct (truthy (Some d) && (d <? t - clock w)).
      + unfold bind, raise. destruct (sleep d w1) as [[[]|e] w3];
          intros H; inversion H.
      + unfold ret. intros H; now inversion H.
    - unfold ret. intros H; now inversion H. }
  destruct (guard w1) as [[[]|e] w2] eqn:Hg; [|discriminate].
  rewrite (Hguard _ eq_refl).
  destruct (Z.ltb_spec 0 (t - clock w)) as [Hfuture|Hpast].
  - intros Hs. apply sleep_ok in Hs. destruct Hs as (_ & Hc & _ & Ht).
    rewrite Ht, Htl, Hc, Hclock. repeat split; lia.
  - unfold ret. intros H; inversion H; subst.
    rewrite Hclock, Htrace, Htl. repeat split; lia.
Qed.

Lemma pop_ok timeout w ev w' :
  Timeline.pop timeout w = (Ok ev, w') ->
  timeline w = ev :: timeline w' /\ TimeEvent.time ev <= clock w' /\
  (TimeEvent.time ev <= clock w -> clock w' = clock w /\ trace w' = trace w).
Proof.
  unfold Timeline.pop, Timeline.first. unfold bind at 1 2, gets.
  destruct (timeline w) as [|head rest] eqn:Htl; [discriminate|].
  unfold ret at 1. unfold bind at 1.
  destruct (sleep_until (TimeEvent.time head) timeout w) as [[[]|e] w1] eqn:Hs;
    [|discriminate].
  apply sleep_until_ok in Hs. destruct Hs as (Htl1 & Hdue & Hpast).
  unfold Timeline.pop0, bind, gets. rewrite Htl1, Htl.
  unfold modify, ret. intros H; inversion H; subst. simpl.
  repeat split; tauto.
Qed.

Lemma pop_ascending timeout w :
  ascending (timeline w) -> ascending (timeline (snd (Timeline.pop timeout w))).
Proof.
  intros Hasc. unfold Timeline.pop, Timeline.first. unfold bind at 1 2, gets.
  destruct (timeline w) as [|head rest] eqn:Htl; [simpl; rewrite Htl; constructor|].
  unfold ret at 1. unfold bind at 1.
  pose proof (proj1 (keeps_sleep_until (TimeEvent.time head) timeout w)) as Hk.
  destruct (sleep_until (TimeEvent.time head) timeout w) as [[[]|e] w1]; simpl in *.
  - unfold Timeline.pop0, bind, gets. rewrite Hk, Htl. simpl.
    now inversion Hasc.
  - now rewrite Hk, Htl.
Qed.

Lemma do_calls_ascending cs w :
  ascending (timeline w) -> ascending (timeline (do_calls cs w)).
Proof.
  revert w. induction cs as [|c cs IH]; intros w Hw; [exact Hw|].
  change (ascending (timeline (do_calls cs (do_call c w)))).
  apply IH. destruct c as [ev|timeout]; unfold do_call.
  - destruct (insert_spec ev w) as (w' & Hrun & _ & Hasc & _).
    now rewrite Hrun.
  - now apply pop_ascending.
Qed.

(** Settles the comparisons of the goal that linear arithmetic decides. *)
Ltac decide_ltb :=
  repeat match goal with
    | |- context [?a <? ?b] =>
        first [ replace (a <? b) with true by (symmetry; apply Z.ltb_lt; lia)
              | replace (a <? b) with false by (symmetry; apply Z.ltb_ge; lia) ]
    | |- context [?a =? ?b] =>
        first [ replace (a =? b) with true by (symmetry; apply Z.eqb_eq; lia)
              | replace (a =? b) with false by (symmetry; apply Z.eqb_neq; lia) ]
    end.

(** With no interrupt on its way and no timeout, [pop] on a timeline that
    holds an event does return one. *)
Lemma pop_returns w ev rest :
  timeline w = ev :: rest -> sigint w = None ->
  exists w', Timeline.pop None w = (Ok ev, w') /\ timeline w' = rest.
Proof.
  destruct w as [clk z sg svc lmp tl tr]. simpl. intros -> ->.
  unfold Timeline.pop, Timeline.first, sleep_until, utc_now, bind, gets, checkpoint, ret.
  simpl. destruct (Z.ltb_spec 0 (TimeEvent.time ev - clk)).
  - unfold sleep. decide_ltb. simpl. eexists; split; reflexivity.
  - simpl. eexists; split; reflexivity.
Qed.

(** ** [Timeline.pop] *)

(** C4: after any sequence of [insert] and [pop] calls on a timeline that
    started empty, a [pop] that returns gives the event at the head of the
    timeline, whose time is the least of all the events queued, and
    removes that event and no other; it returns with the clock at or past
    the time of the event; and when that time has already come at the
    call, it returns without sleeping: the clock and the trace of effects
    are as they were. *)
Theorem pop_returns_earliest cs w0 timeout ev w' :
  timeline w0 = [] ->
  Timeline.pop timeout (do_calls cs w0) = (Ok ev, w') ->
  timeline (do_calls cs w0) = ev :: timeline w' /\
  (forall e, In e (timeline (do_calls cs w0)) ->
             TimeEvent.time ev <= TimeEvent.time e) /\
  TimeEvent.time ev <= clock w' /\
  (TimeEvent.time ev <= clock (do_calls cs w0) ->
   clock w' = clock (do_calls cs w0) /\ trace w' = trace (do_calls cs w0)).
Proof.
  intros Hempty Hpop.
  assert (Hasc : ascending (timeline (do_calls cs w0))).
  { apply do_calls_ascending. rewrite Hempty. constructor. }
  apply pop_ok in Hpop. destruct Hpop as (Hhead & Hdue & Hpast).
  repeat split; try tauto.
  intros e He. rewrite Hhead in Hasc, He. inversion Hasc as [|? ? Hall _]; subst.
  destruct He as [<-|He]; [lia|].
  rewrite Forall_forall in Hall. apply (Hall e He).
Qed.

Lemma pop_returns_earliest_witness :
  let w := do_calls [Insert (sample_event "late" (hours 21));
                     Insert (sample_event "early" (hours 18))]
             (sample_world (hours 12) (fun _ => Unreachable)) in
  timeline w = sample_event "early" (hours 18) :: [sample_event "late" (hours 21)] /\
  (forall e, In e (timeline w) -> hours 18 <= TimeEvent.time e).
Proof.
  pose proof (pop_returns_earliest
                [Insert (sample_event "late" (hours 21));
                 Insert (sample_event "early" (hours 18))]
                (sample_world (hours 12) (fun _ => Unreachable))
                None (sample_event "early" (hours 18)) _ eq_refl eq_refl) as H.
  split; [exact (proj1 H)|exact (proj1 (proj2 H))].
Defined.

(** A timeout that is not zero and runs out before the head of the
    timeline is due: [pop] sleeps for the timeout, raises [TimeoutError]
    and leaves the timeline as it was. *)
Lemma pop_timeout_raises w ev rest d :
  timeline w = ev :: rest -> sigint w = None ->
  0 < d -> d < TimeEvent.time ev - clock w ->
  exists w', Timeline.pop (Some d) w = (Raise TimeoutError, w') /\
             timeline w' = ev :: rest /\
             trace w' = trace w ++ [Sleep d] /\ clock w' = clock w + d.
Proof.
  destruct w as [clk z sg svc lmp tl tr]. simpl. intros -> -> Hpos Hlt.
  unfold Timeline.pop, Timeline.first, sleep_until, utc_now, bind, gets, checkpoint, ret.
  simpl.
  unfold sleep. decide_ltb. simpl. eexists. split; [reflexivity|]. simpl. repeat split.
Qed.

(** A negative timeout that is below the wait: [time.sleep] refuses it
    and [pop] raises [ValueError], with the timeline as it was. *)
Lemma pop_negative_timeout_raises w ev rest d :
  timeline w = ev :: rest -> sigint w = None ->
  d < 0 -> d < TimeEvent.time ev - clock w ->
  Timeline.pop (Some d) w = (Raise ValueError, w).
Proof.
  destruct w as [clk z sg svc lmp tl tr]. simpl. intros -> -> Hneg Hlt.
  unfold Timeline.pop, Timeline.first, sleep_until, utc_now, bind, gets, checkpoint, ret.
  simpl.
  unfold sleep. decide_ltb. reflexivity.
Qed.

(** C5, at a timeout of zero: with the head of the timeline still in the
    future, [pop(timedelta(0))] raises nothing; it sleeps until the event
    is due, removes it from the timeline and returns it. *)
Theorem pop_zero_timeout_waits w ev rest :
  timeline w = ev :: rest -> sigint w = None ->
  clock w < TimeEvent.time ev ->
  exists w', Timeline.pop (Some 0) w = (Ok ev, w') /\
             timeline w' = rest /\
             trace w' = trace w ++ [Sleep (TimeEvent.time ev - clock w)] /\
             clock w' = TimeEvent.time ev.
Proof.
  destruct w as [clk z sg svc lmp tl tr]. simpl. intros -> -> Hlt.
  unfold Timeline.pop, Timeline.first, sleep_until, utc_now, bind, gets, checkpoint, ret.
  simpl.
  unfold sleep. decide_ltb. simpl. eexists. split; [reflexivity|]. simpl. repeat split. lia.
Qed.

Lemma pop_zero_timeout_waits_witness :
  exists w',
    Timeline.pop (Some 0)
      (set_timeline [sample_event "late" (hours 21)]
         (sample_world (hours 12) (fun _ => Unreachable)))
    = (Ok (sample_event "late" (hours 21)), w') /\
    timeline w' = [] /\
    trace w' = [Sleep (hours 9)] /\
    clock w' = hours 21.
Proof.
  apply (pop_zero_timeout_waits
           (set_timeline [sample_event "late" (hours 21)]
              (sample_world (hours 12) (fun _ => Unreachable)))
           (sample_event "late" (hours 21)) []);
    [reflexivity|reflexivity|vm_compute; reflexivity].
Defined.

(** C6: on an empty timeline [pop] raises [IndexError] whatever the
    timeout, and the world is untouched: no sleep, no effect, the clock
    where it was. *)
Theorem pop_empty_raises timeout w :
  timeline w = [] -> Timeline.pop timeout w = (Raise IndexError, w).
Proof.
  intros Hempty. unfold Timeline.pop, Timeline.first, bind, gets.
  now rewrite Hempty.
Qed.

Lemma pop_empty_raises_witness :
  Timeline.pop (Some (seconds 5)) (sample_world (hours 12) (fun _ => Unreachable))
  = (Raise IndexError, sample_world (hours 12) (fun _ => Unreachable)).
Proof.
  apply (pop_empty_raises (Some (seconds 5))
           (sample_world (hours 12) (fun _ => Unreachable))).
  reflexivity.
Defined.

(** ** Floating point: the milliseconds of a duration *)






















(** ** [LampState.apply] *)

Arguments duration_ms : simpl never.

Example duration_ms_transition : duration_ms TRANSITION_DURATION = 300000.
Proof. vm_compute. reflexivity. Qed.

Example duration_ms_default_fade : duration_ms (seconds 4) = 4000.
Proof. vm_compute. reflexivity. Qed.

(** The conversion truncates, and the float product can fall just below
    a whole number: 1.001 seconds are sent as 1000 milliseconds. *)
Example duration_ms_truncates :
  duration_ms 1999 = 1 /\ duration_ms 1001000 = 1000.
Proof. split; vm_compute; reflexivity. Qed.

(** Beyond [2^53] microseconds the quotient itself is rounded. *)
Example duration_ms_large :
  duration_ms (200000000 * usec_per_day) = 17280000000000000 /\
  duration_ms (2 ^ 63) = 9223372036854776 /\
  duration_ms 5258986265376043509 = 5258986265376044.
Proof. repeat split; vm_compute; reflexivity. Qed.



(** ** Saving and restoring *)

Lemma color_eqb_eq (a b : color) : color_eqb a b = true <-> a = b.
Proof.
  destruct a as [[[h1 s1] b1] k1], b as [[[h2 s2] b2] k2]. unfold color_eqb.
  rewrite !andb_true_iff, !Z.eqb_eq. split.
  - intros [[[-> ->] ->] ->]. reflexivity.
  - intros H. inversion H. auto.
Qed.

Lemma set_commands_app tr1 tr2 :
  set_commands (tr1 ++ tr2) = set_commands tr1 ++ set_commands tr2.
Proof. apply filter_app. Qed.

(** One turn of the loop, with no interrupt on its way: the lamp is asked
    for its power and its color, gets a command for each of the two that
    differs from the saved entry, and ends in the saved state; no other
    lamp changes. *)
Lemma reset_from_step i dev rest saved s w :
  sigint w = None -> is_light (lamps w dev) = true -> nth_error saved i = Some s ->
  exists w1,
    reset_from i (dev :: rest) saved w = reset_from (S i) rest saved w1 /\
    sigint w1 = None /\
    set_commands (trace w1)
    = set_commands (trace w) ++ restore_commands (lamps w) (dev, s) /\
    lamps w1 dev = lamp_of_saved s /\
    (forall d, d <> dev -> lamps w1 d = lamps w d).
Proof.
  destruct w as [clk z sg svc lmp tl tr]. simpl. intros -> Hlight Hnth.
  cbn [reset_from]. unfold index. rewrite Hnth.
  unfold bind, ret, get_power, get_color, set_power, set_color, perform, bind,
    checkpoint, modify, gets. simpl. rewrite Hlight. simpl.
  destruct (Bool.eqb (lamp_power (lmp dev)) (saved_power s)) eqn:Hp;
    destruct (color_eqb (lamp_color (lmp dev)) (saved_color s)) eqn:Hc; simpl;
    unfold update; rewrite ?Z.eqb_refl; simpl; rewrite ?Hlight; simpl;
    (eexists; split; [reflexivity|]); simpl;
    rewrite !set_commands_app; simpl; rewrite ?app_nil_r;
    try apply eqb_prop in Hp; try apply color_eqb_eq in Hc;
    (split; [reflexivity|]); (split; [rewrite <- ?app_assoc; reflexivity|]);
    unfold update, with_power, with_color, lamp_of_saved; rewrite ?Z.eqb_refl; simpl;
    rewrite ?Hlight.
  - split; [destruct (lmp dev); simpl in *; now subst|reflexivity].
  - split; [now rewrite Hp|].
    intros d Hd. apply Z.eqb_neq in Hd. now rewrite Hd.
  - split; [now rewrite Hc|].
    intros d Hd. apply Z.eqb_neq in Hd. now rewrite Hd.
  - split; [reflexivity|].
    intros d Hd. apply Z.eqb_neq in Hd. now rewrite Hd.
Qed.

Lemma flat_map_agree {A B} (f g : A -> list B) l :
  (forall a, In a l -> f a = g a) -> flat_map f l = flat_map g l.
Proof.
  induction l as [|a l IH]; intros H; simpl; [reflexivity|].
  rewrite (H a (or_introl eq_refl)), IH; [reflexivity|].
  intros b Hb. apply H. now right.
Qed.

Lemma in_combine_fst {A B} (l : list A) (l' : list B) a b :
  In (a, b) (combine l l') -> In a l.
Proof. apply in_combine_l. Qed.

Lemma all_lights_step w w1 dev rest s :
  all_lights w (dev :: rest) -> lamps w1 dev = lamp_of_saved s ->
  (forall d, d <> dev -> lamps w1 d = lamps w d) -> all_lights w1 rest.
Proof.
  intros Hall Hdev Hother d Hd. destruct (Z.eq_dec d dev) as [->|Hne].
  - now rewrite Hdev.
  - rewrite (Hother d Hne). apply Hall. now right.
Qed.

(** The whole loop on lights, from any index on: [pre] holds the entries
    before the index and [post] those from the index on. *)
Lemma reset_from_spec devices :
  forall pre post w,
    sigint w = None -> all_lights w devices ->
    (List.length devices <= List.length post)%nat ->
    exists w',
      reset_from (List.length pre) devices (pre ++ post) w = (Ok tt, w') /\
      sigint w' = None /\
      (NoDup devices ->
       set_commands (trace w')
       = set_commands (trace w)
         ++ flat_map (restore_commands (lamps w)) (combine devices post)) /\
      (forall d, ~ In d devices -> lamps w' d = lamps w d) /\
      (forall orig,
          (forall d s, In (d, s) (combine devices post) -> lamp_of_saved s = orig d) ->
          forall d, In d devices -> lamps w' d = orig d).
Proof.
  induction devices as [|dev rest IH]; intros pre post w Hquiet Hall Hlen.
  - exists w. simpl. repeat split; auto.
    + intros _. now rewrite app_nil_r.
    + intros orig _ d [].
  - destruct post as [|s post]; [simpl in Hlen; lia|].
    assert (Hnth : nth_error (pre ++ s :: post) (List.length pre) = Some s).
    { rewrite nth_error_app2 by lia. now rewrite Nat.sub_diag. }
    destruct (reset_from_step (List.length pre) dev rest _ s w Hquiet
                (Hall dev (or_introl eq_refl)) Hnth)
      as (w1 & Hstep & Hquiet1 & Htrace1 & Hdev1 & Hother1).
    destruct (IH (pre ++ [s]) post w1 Hquiet1 (all_lights_step _ _ _ _ _ Hall Hdev1 Hother1))
      as (w' & Hrun & Hquiet' & Htrace & Hout & Hin).
    { simpl in Hlen. lia. }
    exists w'. rewrite Hstep.
    replace (S (List.length pre)) with (List.length (pre ++ [s]))
      by (rewrite length_app; simpl; lia).
    replace (pre ++ s :: post) with ((pre ++ [s]) ++ post)
      by (rewrite <- app_assoc; reflexivity).
    split; [exact Hrun|]. split; [exact Hquiet'|]. split; [|split].
    + intros Hnodup. inversion Hnodup as [|? ? Hnotin Hnodup']; subst.
      rewrite (Htrace Hnodup'), Htrace1, <- app_assoc. f_equal.
      cbn [combine flat_map]. f_equal.
      apply flat_map_agree. intros [d s'] Hd. unfold restore_commands.
      rewrite Hother1; [reflexivity|].
      intros ->. apply Hnotin. eapply in_combine_fst, Hd.
    + intros d Hd. rewrite Hout by (intros Hr; apply Hd; now right).
      apply Hother1. intros ->. apply Hd. now left.
    + intros orig Horig d Hd.
      destruct (in_dec Z.eq_dec d rest) as [Hrest|Hnot].
      * apply Hin; [|exact Hrest].
        intros d' s' Hd'. apply Horig. now right.
      * destruct Hd as [<-|Hd]; [|contradiction].
        rewrite Hout by exact Hnot. rewrite Hdev1.
        apply Horig. now left.
Qed.

Lemma commands_to_set_commands dev tr :
  commands_to dev (set_commands tr) = commands_to dev tr.
Proof.
  induction tr as [|e tr IH]; [reflexivity|].
  unfold commands_to, set_commands in *.
  destruct e; simpl; rewrite ?IH; try reflexivity.
Qed.

Lemma commands_to_app dev tr1 tr2 :
  commands_to dev (tr1 ++ tr2) = commands_to dev tr1 ++ commands_to dev tr2.
Proof. apply filter_app. Qed.

Lemma commands_to_restore_self cur dev s :
  commands_to dev (restore_commands cur (dev, s)) = restore_commands cur (dev, s).
Proof.
  unfold restore_commands, commands_to.
  destruct (Bool.eqb _ _), (color_eqb _ _); simpl; rewrite ?Z.eqb_refl; reflexivity.
Qed.

Lemma commands_to_restore_other cur dev d s :
  d <> dev -> commands_to dev (restore_commands cur (d, s)) = [].
Proof.
  intros Hd. apply Z.eqb_neq in Hd. unfold restore_commands, commands_to.
  destruct (Bool.eqb _ _), (color_eqb _ _); simpl; rewrite ?Hd; reflexivity.
Qed.

Lemma commands_to_absent cur dev devices saved :
  ~ In dev devices ->
  commands_to dev (flat_map (restore_commands cur) (combine devices saved)) = [].
Proof.
  revert saved. induction devices as [|d rest IH]; intros saved Hnot; [reflexivity|].
  destruct saved as [|s saved]; [reflexivity|].
  cbn [combine flat_map]. rewrite commands_to_app.
  rewrite commands_to_restore_other by (intros ->; apply Hnot; now left).
  apply IH. intros Hr. apply Hnot. now right.
Qed.

Lemma commands_to_position cur devices :
  forall saved i dev s,
    NoDup devices ->
    nth_error devices i = Some dev -> nth_error saved i = Some s ->
    commands_to dev (flat_map (restore_commands cur) (combine devices saved))
    = restore_commands cur (dev, s).
Proof.
  induction devices as [|d rest IH]; intros saved i dev s Hnodup Hdev Hs.
  - destruct i; discriminate.
  - inversion Hnodup as [|? ? Hnotin Hnodup']; subst.
    destruct saved as [|s0 saved]; [destruct i; discriminate|].
    cbn [combine flat_map]. rewrite commands_to_app.
    destruct i as [|i]; simpl in Hdev, Hs.
    + inversion Hdev; inversion Hs; subst.
      rewrite commands_to_restore_self, commands_to_absent by exact Hnotin.
      apply app_nil_r.
    + rewrite commands_to_restore_other.
      * simpl. apply (IH saved i); assumption.
      * intros ->. apply Hnotin. eapply nth_error_In, Hdev.
Qed.

(** C8: with no interrupt on its way and every device a light that is
    listed once (the only lists [main] gets as far as restoring), the
    restore routine returns, and the commands it sends to the device at a
    position of the list are fixed by what the device answered and by the
    saved entry at the same position: a [set_power] with the saved power
    exactly when the powers differ, a [set_color] with the saved color
    exactly when the colors differ, and nothing when both agree.  Taken
    together the commands sent are those of the pairs (device, entry) in
    the order of the list. *)
Theorem reset_device_states_commands devices saved w i dev s :
  sigint w = None -> all_lights w devices -> NoDup devices ->
  (List.length devices <= List.length saved)%nat ->
  nth_error devices i = Some dev -> nth_error saved i = Some s ->
  exists w',
    reset_device_states devices saved w = (Ok tt, w') /\
    commands_to dev (trace w')
    = commands_to dev (trace w)
      ++ (if Bool.eqb (lamp_power (lamps w dev)) (saved_power s) then []
          else [SetPower dev (saved_power s)])
      ++ (if color_eqb (lamp_color (lamps w dev)) (saved_color s) then []
          else [SetColor dev (saved_color s)]) /\
    set_commands (trace w')
    = set_commands (trace w)
      ++ flat_map (restore_commands (lamps w)) (List.combine devices saved).
Proof.
  intros Hquiet Hlights Hnodup Hlen Hdev Hs.
  destruct (reset_from_spec devices [] saved w Hquiet Hlights Hlen)
    as (w' & Hrun & _ & Htrace & _).
  exists w'. split; [exact Hrun|]. specialize (Htrace Hnodup). split; [|exact Htrace].
  rewrite <- (commands_to_set_commands dev (trace w')), Htrace.
  rewrite commands_to_app, commands_to_set_commands.
  now rewrite (commands_to_position (lamps w) devices saved i dev s).
Qed.

Lemma reset_device_states_commands_witness :
  exists w',
    reset_device_states [1; 2]
      [(1, true, COLOR_NEUTRAL_LIGHT); (2, false, (0, 0, 0, 0))]
      (sample_world (hours 12) (fun _ => Unreachable)) = (Ok tt, w') /\
    commands_to 1 (trace w') = [SetPower 1 true; SetColor 1 COLOR_NEUTRAL_LIGHT] /\
    set_commands (trace w') = [SetPower 1 true; SetColor 1 COLOR_NEUTRAL_LIGHT].
Proof.
  apply (reset_device_states_commands [1; 2]
           [(1, true, COLOR_NEUTRAL_LIGHT); (2, false, (0, 0, 0, 0))]
           (sample_world (hours 12) (fun _ => Unreachable)) 0%nat 1
           (1, true, COLOR_NEUTRAL_LIGHT)).
  - reflexivity.
  - intros d _. reflexivity.
  - repeat constructor; simpl; intuition lia.
  - simpl. lia.
  - reflexivity.
  - reflexivity.
Defined.

Lemma get_power_quiet dev w :
  sigint w = None ->
  get_power dev w = (Ok (lamp_power (lamps w dev)), log (GetPower dev) w).
Proof.
  intros H. unfold get_power, perform, bind. now rewrite (checkpoint_quiet w H).
Qed.

Lemma get_color_light dev w :
  sigint w = None -> is_light (lamps w dev) = true ->
  get_color dev w = (Ok (lamp_color (lamps w dev)), log (GetColor dev) w).
Proof.
  intros H Hlight. unfold get_color, perform, bind, gets. rewrite Hlight.
  now rewrite (checkpoint_quiet w H).
Qed.

(** A device that is not a light has no [get_color]. *)
Lemma get_color_not_light dev w :
  is_light (lamps w dev) = false -> get_color dev w = (Raise AttributeError, w).
Proof. intros Hlight. unfold get_color, bind, gets. now rewrite Hlight. Qed.

(** [save_current_states] on lights, with no interrupt on its way: an
    entry per device, in the order of the list, with what the lamp
    answers; nothing but the trace changes. *)
Lemma save_current_states_spec devices :
  forall w, sigint w = None -> all_lights w devices ->
  exists w1,
    save_current_states devices w
    = (Ok (map (fun d => (d, lamp_power (lamps w d), lamp_color (lamps w d))) devices),
       w1) /\
    sigint w1 = None /\ lamps w1 = lamps w /\ clock w1 = clock w /\
    timeline w1 = timeline w /\ tz w1 = tz w /\ service w1 = service w /\
    trace w1 = trace w ++ flat_map (fun d => [GetPower d; GetColor d]) devices.
Proof.
  induction devices as [|dev rest IH]; intros w Hquiet Hall.
  - exists w. simpl. rewrite app_nil_r. repeat split; assumption.
  - destruct (IH (log (GetColor dev) (log (GetPower dev) w)) Hquiet)
      as (w1 & Hrun & Hq & Hl & Hc & Ht & Hz & Hs & Htr).
    { intros d Hd. apply Hall. now right. }
    exists w1. cbn [save_current_states].
    unfold bind at 1. rewrite (get_power_quiet dev w Hquiet).
    unfold bind at 1. rewrite (get_color_light dev (log (GetPower dev) w) Hquiet).
    + unfold bind at 1. rewrite Hrun. unfold ret. simpl in *.
      repeat split; try assumption.
      rewrite Htr, <- !app_assoc. reflexivity.
    + apply Hall. now left.
Qed.

(** [save_current_states] on a list whose first device that is not a
    light is [dev]: the lights before it are asked, [dev] is asked for its
    power, and the lookup of [get_color] raises. *)
Lemma save_current_states_stops lights dev rest :
  forall w, sigint w = None -> all_lights w lights ->
  is_light (lamps w dev) = false ->
  exists w1,
    save_current_states (lights ++ dev :: rest) w = (Raise AttributeError, w1) /\
    sigint w1 = None /\ lamps w1 = lamps w /\ clock w1 = clock w /\
    timeline w1 = timeline w /\
    trace w1 = trace w ++ flat_map (fun d => [GetPower d; GetColor d]) lights
                 ++ [GetPower dev].
Proof.
  induction lights as [|l lights IH]; intros w Hquiet Hall Hdev.
  - exists (log (GetPower dev) w). cbn [app save_current_states].
    unfold bind at 1. rewrite (get_power_quiet dev w Hquiet).
    unfold bind at 1. rewrite (get_color_not_light dev (log (GetPower dev) w) Hdev).
    repeat split; assumption.
  - destruct (IH (log (GetColor l) (log (GetPower l) w)) Hquiet)
      as (w1 & Hrun & Hq & Hl & Hc & Ht & Htr).
    { intros d Hd. apply Hall. now right. }
    { exact Hdev. }
    exists w1. cbn [app save_current_states].
    unfold bind at 1. rewrite (get_power_quiet l w Hquiet).
    unfold bind at 1. rewrite (get_color_light l (log (GetPower l) w) Hquiet).
    + unfold bind at 1. rewrite Hrun. simpl in *.
      repeat split; try assumption.
      rewrite Htr, <- !app_assoc. reflexivity.
    + apply Hall. now left.
Qed.

(** A list holds lights only, or has a first device that is not one. *)
Lemma first_not_light w devices :
  all_lights w devices \/
  exists lights dev rest,
    devices = lights ++ dev :: rest /\ all_lights w lights /\
    is_light (lamps w dev) = false.
Proof.
  induction devices as [|d devices IH].
  - left. intros d [].
  - destruct (is_light (lamps w d)) eqn:Hd.
    + destruct IH as [Hall|(lights & dev & rest & -> & Hall & Hdev)].
      * left. intros x [<-|Hx]; [exact Hd|now apply Hall].
      * right. exists (d :: lights), dev, rest. split; [reflexivity|].
        split; [|exact Hdev]. intros x [<-|Hx]; [exact Hd|now apply Hall].
    + right. exists [], d, devices. split; [reflexivity|].
      split; [intros x []|exact Hd].
Qed.

(** [save_current_states] returns on lights only. *)
Lemma save_current_states_lights devices w saved w1 :
  sigint w = None -> save_current_states devices w = (Ok saved, w1) ->
  all_lights w devices.
Proof.
  intros Hquiet Hsave.
  destruct (first_not_light w devices) as [Hall|(lights & dev & rest & -> & Hall & Hdev)];
    [exact Hall|].
  destruct (save_current_states_stops lights dev rest w Hquiet Hall Hdev)
    as (w1' & Hrun & _).
  rewrite Hrun in Hsave. discriminate.
Qed.

Lemma in_combine_map {A B} (f : A -> B) l a b :
  In (a, b) (List.combine l (map f l)) -> b = f a.
Proof.
  induction l as [|x l IH]; simpl; [tauto|].
  intros [H|H]; [now inversion H|now apply IH].
Qed.

Lemma ret_bind {A B} (a : A) (k : A -> M B) w : bind (ret a) k w = k a w.
Proof. reflexivity. Qed.

Lemma bind_ext {A B} (m : M A) (k k' : A -> M B) w :
  (forall a w', k a w' = k' a w') -> bind m k w = bind m k' w.
Proof.
  intros H. unfold bind. destruct (m w) as [[a|e] w']; [apply H|reflexivity].
Qed.

(** The loop reads the power and the color of a saved entry and never its
    address. *)
Lemma reset_from_ignores_mac devices :
  forall i saved saved' w,
    map saved_fields saved' = map saved_fields saved ->
    reset_from i devices saved' w = reset_from i devices saved w.
Proof.
  induction devices as [|dev rest IH]; intros i saved saved' w Hfields; [reflexivity|].
  cbn [reset_from]. unfold index.
  assert (Hnth : option_map saved_fields (nth_error saved' i)
                 = option_map saved_fields (nth_error saved i)).
  { now rewrite <- !nth_error_map, Hfields. }
  destruct (nth_error saved' i) as [s'|], (nth_error saved i) as [s|];
    simpl in Hnth; try discriminate; [|reflexivity].
  unfold saved_fields in Hnth. inversion Hnth as [[Hp Hc]].
  rewrite !ret_bind, Hp, Hc.
  repeat (apply bind_ext; intros).
  now apply IH.
Qed.

(** C10: the restore routine pairs devices and saved entries by position
    and by nothing else.  First, it never looks at the address kept in an
    entry: two lists of entries with the same powers and colors, position
    by position, make it behave alike.  Second, when it is given the list
    of devices that was given to [save_current_states], it returns with
    every device of the list in the state that was saved, whatever
    happened to the lamps in between; the devices are lights then as they
    were when they were saved, or nothing would have been saved.  Third, given the same devices in
    another order it puts a lamp in the state saved for another one: with
    lamp 1 lit and lamp 2 off, saving [1; 2] and restoring [2; 1] at once
    turns lamp 1 off. *)
Theorem restore_pairs_by_position :
  (forall devices saved saved' w,
      map saved_fields saved' = map saved_fields saved ->
      reset_device_states devices saved' w = reset_device_states devices saved w) /\
  (forall devices w saved w1 w2,
      sigint w = None ->
      save_current_states devices w = (Ok saved, w1) ->
      sigint w2 = None -> all_lights w2 devices ->
      exists w3,
        reset_device_states devices saved w2 = (Ok tt, w3) /\
        forall d, In d devices -> lamps w3 d = lamps w d) /\
  (exists w saved w1 w3,
      save_current_states [1; 2] w = (Ok saved, w1) /\
      reset_device_states [2; 1] saved w1 = (Ok tt, w3) /\
      lamps w3 1 <> lamps w 1).
Proof.
  split; [|split].
  - intros devices saved saved' w Hfields. now apply reset_from_ignores_mac.
  - intros devices w saved w1 w2 Hquiet Hsave Hquiet2 Hlights2.
    pose proof (save_current_states_lights devices w saved w1 Hquiet Hsave) as Hlights.
    destruct (save_current_states_spec devices w Hquiet Hlights) as (w1' & Hrun & _).
    rewrite Hrun in Hsave. inversion Hsave; subst; clear Hsave.
    set (entry := fun d : mac => (d, lamp_power (lamps w d), lamp_color (lamps w d))).
    destruct (reset_from_spec devices [] (map entry devices) w2 Hquiet2 Hlights2)
      as (w3 & Hreset & _ & _ & _ & Hin).
    { rewrite length_map. lia. }
    exists w3. split; [exact Hreset|].
    intros d Hd. apply (Hin (lamps w)); [|exact Hd].
    intros d' s Hds. pose proof (in_combine_l _ _ _ _ Hds) as Hd'.
    apply in_combine_map in Hds. subst s.
    unfold lamp_of_saved, entry, saved_power, saved_color. simpl.
    specialize (Hlights d' Hd'). destruct (lamps w d'). simpl in Hlights. now subst.
  - exists (one_lit (hours 12)).
    exists (fst_ok [] (save_current_states [1; 2] (one_lit (hours 12)))).
    exists (snd (save_current_states [1; 2] (one_lit (hours 12)))).
    exists (snd (reset_device_states [2; 1]
                   (fst_ok [] (save_current_states [1; 2] (one_lit (hours 12))))
                   (snd (save_current_states [1; 2] (one_lit (hours 12)))))).
    split; [vm_compute; reflexivity|]. split; [vm_compute; reflexivity|].
    vm_compute. discriminate.
Qed.

Lemma restore_pairs_by_position_witness :
  exists w3,
    reset_device_states [1; 2]
      [(1, true, COLOR_NEUTRAL_LIGHT); (2, false, (0, 0, 0, 0))]
      (sample_world (hours 20) (fun _ => Unreachable)) = (Ok tt, w3) /\
    forall d, In d [1; 2] -> lamps w3 d = lamps (one_lit (hours 12)) d.
Proof.
  apply (proj1 (proj2 restore_pairs_by_position) [1; 2] (one_lit (hours 12))
           [(1, true, COLOR_NEUTRAL_LIGHT); (2, false, (0, 0, 0, 0))]
           (log (GetColor 2) (log (GetPower 2)
              (log (GetColor 1) (log (GetPower 1) (one_lit (hours 12))))))
           (sample_world (hours 20) (fun _ => Unreachable)));
    [vm_compute; reflexivity|vm_compute; reflexivity|vm_compute; reflexivity|].
  intros d _. reflexivity.
Defined.

(** ** The sunset oracle *)

Lemma perform_quiet e w : sigint w = None -> perform e w = (Ok tt, log e w).
Proof.
  intros H. unfold perform, bind. now rewrite (checkpoint_quiet w H).
Qed.

(** Every reply but one with two timestamps makes the request raise, and
    what it raises is an [Exception]. *)
Lemma request_fails lat lng date w :
  sigint w = None ->
  usable (service w (request_for lat lng date)) = false ->
  exists e,
    request_sunrise_sunset lat lng date w
    = (Raise e, log (HttpGet (request_for lat lng date)) w) /\
    is_Exception e = true.
Proof.
  intros Hquiet Hbad. unfold request_sunrise_sunset.
  unfold bind at 1. rewrite (perform_quiet _ w Hquiet).
  unfold bind at 1, gets. cbn [service log].
  destruct (service w (request_for lat lng date)) as [| | |[| |t1] [| |t2]];
    try discriminate; unfold bind, parse_field, raise, ret;
    eexists; (split; [reflexivity|reflexivity]).
Qed.

Lemma request_ok lat lng date w :
  sigint w = None ->
  forall sunrise sunset,
    service w (request_for lat lng date) = Results (Stamp sunrise) (Stamp sunset) ->
    request_sunrise_sunset lat lng date w
    = (Ok (sunrise, sunset), log (HttpGet (request_for lat lng date)) w).
Proof.
  intros Hquiet sunrise sunset Hreply.
  unfold request_sunrise_sunset.
  unfold bind at 1. rewrite (perform_quiet _ w Hquiet).
  unfold bind at 1, gets. cbn [service log]. now rewrite Hreply.
Qed.

(** The fallback of [get_sunset_or_default] ends in [utc_datetime], which
    raises on the bound method it is given: once the request has raised,
    no datetime is returned. *)
Lemma fallback_raises lat lng date w e w1 :
  request_sunrise_sunset lat lng date w = (Raise e, w1) ->
  exists e' w', get_sunset_or_default lat lng date w = (Raise e', w').
Proof.
  intros Hreq. unfold get_sunset_or_default, try_except.
  unfold bind at 1. rewrite Hreq.
  destruct (is_Exception e); [|do 2 eexists; reflexivity].
  unfold bind at 1.
  destruct (print _ w1) as [[[]|e1] w2]; [|do 2 eexists; reflexivity].
  unfold bind at 1.
  destruct (print _ w2) as [[[]|e2] w3]; [|do 2 eexists; reflexivity].
  do 2 eexists; reflexivity.
Qed.

(** C1, on the failure path: when the request raises an [Exception] and
    no interrupt is on its way, [get_sunset_or_default] prints its two
    warnings and then raises [TypeError]; it does not return 18:00 local
    time, nor any other datetime. *)
Theorem get_sunset_or_default_fallback_raises lat lng date w e w1 :
  request_sunrise_sunset lat lng date w = (Raise e, w1) ->
  is_Exception e = true ->
  sigint w1 = None ->
  exists w',
    get_sunset_or_default lat lng date w = (Raise TypeError, w') /\
    trace w' = trace w1 ++
      [Print (Text "warning: exception raised while requesting sunrise-sunset");
       Print (Exn e)].
Proof.
  intros Hreq Hexc Hquiet. unfold get_sunset_or_default, try_except.
  unfold bind at 1. rewrite Hreq, Hexc. cbv beta iota.
  eexists. split.
  - unfold bind at 1, print. rewrite (perform_quiet _ w1 Hquiet).
    unfold bind at 1. rewrite (perform_quiet _ (log _ w1) Hquiet).
    reflexivity.
  - simpl. now rewrite <- app_assoc.
Qed.

Lemma get_sunset_or_default_fallback_raises_witness :
  exists w',
    get_sunset_or_default LATITUDE LONGITUDE (hours 12)
      (sample_world (hours 12) (fun _ => Unreachable)) = (Raise TypeError, w') /\
    trace w' =
      [HttpGet (request_for LATITUDE LONGITUDE (hours 12));
       Print (Text "warning: exception raised while requesting sunrise-sunset");
       Print (Exn ConnectionError)].
Proof.
  apply (get_sunset_or_default_fallback_raises LATITUDE LONGITUDE (hours 12)
           (sample_world (hours 12) (fun _ => Unreachable)) ConnectionError
           (log (HttpGet (request_for LATITUDE LONGITUDE (hours 12)))
              (sample_world (hours 12) (fun _ => Unreachable))));
    reflexivity.
Defined.

Lemma perform_ok e w w' :
  perform e w = (Ok tt, w') ->
  trace w' = trace w ++ [e] /\ clock w' = clock w /\ timeline w' = timeline w /\
  lamps w' = lamps w /\ tz w' = tz w /\ service w' = service w.
Proof.
  unfold perform, bind, modify.
  destruct (checkpoint w) as [[[]|e0] w1] eqn:Hc; intros H; inversion H; subst.
  apply checkpoint_ok in Hc. destruct Hc as (Hclock & Htrace & Htl & Hl & Hz & Hs).
  simpl. rewrite Htrace. repeat split; assumption.
Qed.

(** A request that returns has sent one GET and changed nothing else. *)
Lemma request_ok_inv lat lng date w p w1 :
  request_sunrise_sunset lat lng date w = (Ok p, w1) ->
  trace w1 = trace w ++ [HttpGet (request_for lat lng date)].
Proof.
  unfold request_sunrise_sunset.
  unfold bind at 1.
  destruct (perform _ w) as [[[]|e] w2] eqn:Hp; [|discriminate].
  apply perform_ok in Hp. destruct Hp as (Htrace & _).
  unfold bind at 1, gets.
  destruct (service w2 (request_for lat lng date)) as [| | |[| |t1] [| |t2]];
    unfold bind, parse_field, raise, ret; intros H; inversion H; subst.
  exact Htrace.
Qed.

(** What [get_sunset_or_default] returns, the request has returned. *)
Lemma get_sunset_or_default_ok_inv lat lng date w sunset w1 :
  get_sunset_or_default lat lng date w = (Ok sunset, w1) ->
  exists sunrise, request_sunrise_sunset lat lng date w = (Ok (sunrise, sunset), w1).
Proof.
  intros H.
  destruct (request_sunrise_sunset lat lng date w) as [[[sunrise s]|e] w2] eqn:Hreq.
  - unfold get_sunset_or_default, try_except, bind in H. rewrite Hreq in H.
    unfold ret in H. simpl in H. inversion H; subst. now exists sunrise.
  - destruct (fallback_raises _ _ _ _ _ _ Hreq) as (e' & w' & Hraise).
    rewrite Hraise in H. discriminate.
Qed.

Lemma utc_now_quiet w : sigint w = None -> utc_now w = (Ok (clock w), w).
Proof.
  intros H. unfold utc_now, bind, gets. now rewrite (checkpoint_quiet w H).
Qed.

(** ** [next_sunset] *)

(** C9, as the code has it: when the oracle returns [today] for the date
    of now, it has sent one request; [next_sunset] returns [today] with
    no further request when [today] is after now, which is then in the
    future; otherwise [next_sunset] is the oracle called for now plus one
    day, and when that call returns two requests have been sent, the
    second for the day after. *)
Theorem next_sunset_today_or_tomorrow lat lng w today w1 :
  sigint w = None ->
  get_sunset_or_default lat lng (clock w) w = (Ok today, w1) ->
  trace w1 = trace w ++ [HttpGet (request_for lat lng (clock w))] /\
  (clock w < today -> next_sunset lat lng w = (Ok today, w1)) /\
  (today <= clock w ->
   next_sunset lat lng w = get_sunset_or_default lat lng (clock w + days 1) w1 /\
   forall tomorrow w2,
     get_sunset_or_default lat lng (clock w + days 1) w1 = (Ok tomorrow, w2) ->
     trace w2 = trace w ++ [HttpGet (request_for lat lng (clock w));
                            HttpGet (request_for lat lng (clock w + days 1))]).
Proof.
  intros Hquiet Htoday.
  assert (Htrace : trace w1 = trace w ++ [HttpGet (request_for lat lng (clock w))]).
  { destruct (get_sunset_or_default_ok_inv _ _ _ _ _ _ Htoday) as (sunrise & Hreq).
    apply (request_ok_inv _ _ _ _ _ _ Hreq). }
  assert (Hrun : next_sunset lat lng w
                 = if clock w <? today then (Ok today, w1)
                   else get_sunset_or_default lat lng (clock w + days 1) w1).
  { unfold next_sunset. unfold bind at 1. rewrite (utc_now_quiet w Hquiet).
    unfold bind at 1. rewrite Htoday. now destruct (clock w <? today). }
  split; [exact Htrace|]. split.
  - intros Hfuture. rewrite Hrun. now decide_ltb.
  - intros Hpast. split; [rewrite Hrun; now decide_ltb|].
    intros tomorrow w2 Htomorrow.
    destruct (get_sunset_or_default_ok_inv _ _ _ _ _ _ Htomorrow) as (sunrise & Hreq).
    rewrite (request_ok_inv _ _ _ _ _ _ Hreq), Htrace, <- app_assoc. reflexivity.
Qed.

Lemma next_sunset_today_or_tomorrow_witness :
  next_sunset LATITUDE LONGITUDE (sample_world (hours 12) (always (hours 10) (hours 24)))
  = (Ok (hours 24),
     log (HttpGet (request_for LATITUDE LONGITUDE (hours 12)))
       (sample_world (hours 12) (always (hours 10) (hours 24)))).
Proof.
  apply (next_sunset_today_or_tomorrow LATITUDE LONGITUDE
           (sample_world (hours 12) (always (hours 10) (hours 24))) (hours 24)
           (log (HttpGet (request_for LATITUDE LONGITUDE (hours 12)))
              (sample_world (hours 12) (always (hours 10) (hours 24))))
           eq_refl eq_refl).
  reflexivity.
Defined.

(** C9 as claimed fails on its last part: a service that answers every
    request with the sunset of the same evening, asked two hours after
    that sunset, gets it back from [next_sunset]: an instant in the past. *)
Lemma next_sunset_not_always_future :
  ~ (forall lat lng w sunset w',
        next_sunset lat lng w = (Ok sunset, w') -> clock w < sunset).
Proof.
  intros H.
  specialize (H LATITUDE LONGITUDE
                (sample_world (hours 26) (always (hours 10) (hours 24)))
                (hours 24)
                (snd (next_sunset LATITUDE LONGITUDE
                        (sample_world (hours 26) (always (hours 10) (hours 24)))))).
  assert (Hlt : clock (sample_world (hours 26) (always (hours 10) (hours 24))) < hours 24).
  { apply H. vm_compute. reflexivity. }
  vm_compute in Hlt. discriminate.
Qed.

(** ** The daily schedule *)

Lemma keeps_try_except {A} (body : M A) handlers :
  keeps_timeline body ->
  (forall e h, handlers e = Some h -> keeps_timeline h) ->
  keeps_timeline (try_except body handlers).
Proof.
  intros Hbody Hh w. unfold try_except. specialize (Hbody w).
  destruct (body w) as [[a|e] w1]; simpl in *; [exact Hbody|].
  destruct (handlers e) as [h|] eqn:He; [|exact Hbody].
  destruct (Hh e h He w1) as [Ht Hz]. destruct Hbody as [Ht' Hz']. split; congruence.
Qed.

Lemma keeps_request lat lng date : keeps_timeline (request_sunrise_sunset lat lng date).
Proof.
  unfold request_sunrise_sunset.
  apply keeps_bind; [auto with timeline|]. intros _.
  apply keeps_bind; [auto with timeline|]. intros answer.
  destruct answer as [| | |[| |t1] [| |t2]]; auto with timeline;
    repeat (apply keeps_bind; [unfold parse_field; auto with timeline|]; intros);
    unfold parse_field; auto with timeline.
Qed.

Lemma keeps_utc_datetime d t : keeps_timeline (utc_datetime d t).
Proof.
  unfold utc_datetime, datetime_combine.
  apply keeps_bind; [destruct d; auto with timeline|]. intros.
  apply keeps_bind; auto with timeline.
Qed.

Lemma keeps_get_sunset_or_default lat lng date :
  keeps_timeline (get_sunset_or_default lat lng date).
Proof.
  unfold get_sunset_or_default. apply keeps_try_except.
  - apply keeps_bind; [apply keeps_request|]. auto with timeline.
  - intros e h. destruct (is_Exception e); [|discriminate].
    intros H; inversion H; subst; clear H. unfold print.
    do 3 (apply keeps_bind; [auto with timeline|]; intros).
    apply keeps_utc_datetime.
Qed.

Lemma keeps_next_sunset lat lng : keeps_timeline (next_sunset lat lng).
Proof.
  unfold next_sunset, utc_now.
  apply keeps_bind; [apply keeps_bind; auto with timeline|]. intros now.
  apply keeps_bind; [apply keeps_get_sunset_or_default|]. intros sunset.
  destruct (now <? sunset); [auto with timeline|apply keeps_get_sunset_or_default].
Qed.

(** Printing the timeline with no interrupt on its way returns and leaves
    the timeline alone. *)
Lemma print_all_quiet evs :
  forall w, sigint w = None ->
  exists w', Timeline.print_all evs w = (Ok tt, w') /\
             sigint w' = None /\ timeline w' = timeline w.
Proof.
  induction evs as [|ev rest IH]; intros w Hquiet.
  - exists w. repeat split. exact Hquiet.
  - cbn [Timeline.print_all]. unfold bind at 1.
    unfold TimeEventOps.print, bind at 1, gets, print.
    rewrite (perform_quiet _ w Hquiet).
    apply (IH (log _ w) Hquiet).
Qed.

(** The three inserts and the printing that end [fill_timeline], from a
    world with no interrupt on its way. *)
Lemma schedule_quiet sunset w :
  sigint w = None ->
  exists w',
    (z <- gets tz ;;
     let local_date := DateObject (local_date z sunset) in
     let evening := sunset + SUNSET_OFFSET in
     Timeline.insert (event "Evening" evening state_evening TRANSITION_DURATION) ;;
     nighttime <- utc_datetime local_date (_time 21 0 0) ;;
     Timeline.insert (event "Nightime" nighttime state_night TRANSITION_DURATION) ;;
     let lightsoff := nighttime + hours 3 in
     Timeline.insert (event "Lights Off" lightsoff state_off TRANSITION_DURATION) ;;
     print (Text "Queued events:") ;;
     Timeline.print ;;
     print (Text "--")) w = (Ok tt, w') /\
    timeline w'
    = sort (sort (sort (timeline w ++ [evening_event sunset])
                  ++ [nighttime_event (tz w) sunset])
            ++ [lightsoff_event (tz w) sunset]).
Proof.
  destruct w as [clk z sg svc lmp tl tr]. simpl. intros ->.
  set (queued := sort (sort (sort (tl ++ [evening_event sunset])
                             ++ [nighttime_event z sunset])
                       ++ [lightsoff_event z sunset])).
  set (w3 := {| clock := clk; tz := z; sigint := None; service := svc; lamps := lmp;
                timeline := queued; trace := tr |}).
  destruct (print_all_quiet queued (log (Print (Text "Queued events:")) w3) eq_refl)
    as (w4 & Hprint & Hquiet4 & Htl4).
  exists (log (Print (Text "--")) w4). split.
  - unfold bind at 1, gets. cbn [tz].
    unfold bind at 1, Timeline.insert, bind at 1, modify. cbn [timeline set_timeline].
    unfold bind at 1, utc_datetime, datetime_combine, bind at 1 2, ret, gets. cbn [tz].
    unfold bind at 1, bind at 1, modify. cbn [timeline set_timeline].
    unfold bind at 1, bind at 1, modify. cbn [timeline set_timeline].
    cbn [clock tz sigint service lamps trace].
    fold (evening_event sunset) (nighttime_event z sunset).
    change (event "Lights Off" _ state_off TRANSITION_DURATION)
      with (lightsoff_event z sunset).
    fold queued. fold w3.
    unfold bind at 1, print. rewrite (perform_quiet _ w3 eq_refl).
    unfold bind at 1, Timeline.print, bind at 1, gets.
    change (timeline (log (Print (Text "Queued events:")) w3)) with queued.
    rewrite Hprint. apply perform_quiet, Hquiet4.
  - simpl. exact Htl4.
Qed.

(** ** [fill_timeline] *)

(** C3, as the code has it: when [next_sunset] returns a sunset and no
    interrupt is on its way, [fill_timeline] returns with three events
    added to those queued and the timeline sorted: Evening thirty minutes
    before the sunset, Nightime at 21:00 local time on the local date of
    the sunset, Lights Off three hours after Nightime.  Nightime is before
    Lights Off in every time zone.  Evening is before Nightime exactly when
    the local clock shows a time before 21:30 at the sunset, provided the
    zone has at 21:00 of that day the offset it has at the sunset. *)
Theorem fill_timeline_three_events w sunset w1 :
  next_sunset LATITUDE LONGITUDE w = (Ok sunset, w1) ->
  sigint w1 = None ->
  exists w',
    fill_timeline w = (Ok tt, w') /\
    Permutation (timeline w')
      (evening_event sunset :: nighttime_event (tz w) sunset
         :: lightsoff_event (tz w) sunset :: timeline w) /\
    ascending (timeline w') /\
    List.length (timeline w') = (3 + List.length (timeline w))%nat /\
    TimeEvent.time (nighttime_event (tz w) sunset)
    < TimeEvent.time (lightsoff_event (tz w) sunset) /\
    (mktime (tz w) (local_date (tz w) sunset * usec_per_day + _time 21 0 0)
     = local_date (tz w) sunset * usec_per_day + _time 21 0 0
       - utcoffset (tz w) sunset ->
     (TimeEvent.time (evening_event sunset)
      < TimeEvent.time (nighttime_event (tz w) sunset)
      <-> local_time (tz w) sunset < _time 21 30 0)).
Proof.
  intros Hnext Hquiet.
  destruct (keeps_next_sunset LATITUDE LONGITUDE w) as [Htl Hz].
  rewrite Hnext in Htl, Hz. simpl in Htl, Hz.
  destruct (schedule_quiet sunset w1 Hquiet) as (w' & Hrun & Hqueued).
  rewrite Htl, Hz in Hqueued.
  assert (Hperm : Permutation (timeline w')
            (evening_event sunset :: nighttime_event (tz w) sunset
               :: lightsoff_event (tz w) sunset :: timeline w)).
  { rewrite Hqueued.
    eapply perm_trans; [apply sort_perm|].
    eapply perm_trans; [apply Permutation_app_tail, sort_perm|].
    eapply perm_trans;
      [apply Permutation_app_tail, Permutation_app_tail, sort_perm|].
    rewrite <- !app_assoc. simpl.
    apply (Permutation_app_comm (timeline w) [_; _; _]). }
  exists w'. split; [|split; [exact Hperm|split; [|split; [|split]]]].
  - unfold fill_timeline. unfold bind at 1. rewrite Hnext. exact Hrun.
  - rewrite Hqueued. apply sort_ascending.
  - now rewrite (Permutation_length Hperm).
  - simpl. unfold hours, usec_per_second. lia.
  - intros Hzone. simpl. rewrite Hzone.
    unfold local_time, local_date, wall_clock.
    pose proof (Z.div_mod (sunset + utcoffset (tz w) sunset) usec_per_day) as Hdm.
    unfold SUNSET_OFFSET, _time, hours, minutes, seconds, usec_per_day,
      usec_per_second in *.
    lia.
Qed.

Lemma fill_timeline_three_events_witness :
  exists w',
    fill_timeline (sample_world (hours 12) (always (hours 10) (hours 24))) = (Ok tt, w') /\
    timeline w' =
      [event "Evening" (hours 23 + minutes 30) state_evening TRANSITION_DURATION;
       event "Nightime" (hours 25) state_night TRANSITION_DURATION;
       event "Lights Off" (hours 28) state_off TRANSITION_DURATION].
Proof.
  destruct (fill_timeline_three_events
              (sample_world (hours 12) (always (hours 10) (hours 24))) (hours 24)
              (log (HttpGet (request_for LATITUDE LONGITUDE (hours 12)))
                 (sample_world (hours 12) (always (hours 10) (hours 24))))
              eq_refl eq_refl) as (w' & Hrun & _).
  exists w'. split; [exact Hrun|].
  vm_compute in Hrun. inversion Hrun. reflexivity.
Defined.

(** C3 as claimed fails on the order of Evening and Nightime: told a sunset
    at 21:54 on the local clock, [fill_timeline] queues Evening for 21:24
    and Nightime for 21:00 of the same day. *)
Lemma fill_timeline_order_counterexample :
  exists w' evening nighttime,
    fill_timeline late_sunset_world = (Ok tt, w') /\
    In evening (timeline w') /\ TimeEvent.name evening = "Evening"%string /\
    In nighttime (timeline w') /\ TimeEvent.name nighttime = "Nightime"%string /\
    TimeEvent.time nighttime < TimeEvent.time evening.
Proof.
  exists (snd (fill_timeline late_sunset_world)),
    (evening_event (hours 24 + minutes 54)),
    (nighttime_event (fixed_zone (hours (-3))) (hours 24 + minutes 54)).
  split; [vm_compute; reflexivity|].
  split; [vm_compute; tauto|]. split; [reflexivity|].
  split; [vm_compute; tauto|]. split; [reflexivity|].
  vm_compute. reflexivity.
Qed.

(** With the service out of reach the refill raises [TypeError] and queues
    nothing, and no clause of the loop of [main] catches it. *)
Example fill_timeline_without_service :
  fst (fill_timeline (sample_world (hours 12) (fun _ => Unreachable))) = Raise TypeError /\
  timeline (snd (fill_timeline (sample_world (hours 12) (fun _ => Unreachable)))) = [] /\
  fst (main 5 [1; 2] (sample_world (hours 12) (fun _ => Unreachable))) = Raise TypeError.
Proof. vm_compute. repeat split. Qed.

(** ** The scheduler loop and the interrupt *)

(** An interrupt delivered while the loop waits for the next event, at
    the reading of the clock: the restore routine runs and the loop
    exits. *)
Lemma interrupt_while_waiting fuel group devices saved w ev rest :
  timeline w = ev :: rest -> sigint w = Some 0%nat ->
  main_loop (S fuel) group devices saved w
  = (reset_device_states devices saved ;; ret Exited) (set_sigint None w).
Proof.
  destruct w as [clk z sg svc lmp tl tr]. simpl. intros -> ->.
  unfold turn, try_except, Timeline.pop, Timeline.first, sleep_until, utc_now.
  unfold bind at 1 2 3 4 5 6, gets, ret, checkpoint. simpl.
  unfold bind. simpl.
  destruct (reset_device_states devices saved _) as [[[]|e] w']; reflexivity.
Qed.

(** An interrupt delivered inside the sleep of the wait, or while an event
    is triggered: the restore routine runs as well. *)
Example interrupt_while_sleeping_or_triggering :
  let w := set_timeline [sample_event "late" (hours 21)] (one_lit (hours 12)) in
  let saved := [(1, false, (0, 0, 0, 0)); (2, false, (0, 0, 0, 0))] in
  main_loop 3 [1; 2] [1; 2] saved (set_sigint (Some 1%nat) w)
  = (reset_device_states [1; 2] saved ;; ret Exited) w /\
  (forall k, In k [2; 3; 4; 5]%nat ->
     let r := main_loop 3 [1; 2] [1; 2] saved (set_sigint (Some k) w) in
     fst r = Ok Exited /\ lamps (snd r) 1 = dark /\ lamps (snd r) 2 = dark).
Proof.
  split; [vm_compute; reflexivity|].
  intros k Hk. simpl in Hk.
  repeat (destruct Hk as [<-|Hk]; [vm_compute; repeat split|]); contradiction.
Qed.

(** C2, where it fails: with the timeline empty, as it is at startup and
    after every Lights Off, [pop] raises [IndexError] and the refill runs
    inside the [except IndexError] clause.  An interrupt delivered there,
    when [next_sunset] reads the clock or sends its request, is not caught
    by the [except KeyboardInterrupt] clause of the same [try]: the loop
    ends with [KeyboardInterrupt] raised out of it, the restore routine
    has not run, no command has been sent to a lamp and no lamp has
    changed. *)
Theorem interrupt_in_refill_skips_restore fuel group devices saved w k :
  timeline w = [] -> sigint w = Some k -> (k <= 1)%nat ->
  exists w',
    main_loop (S fuel) group devices saved w = (Raise KeyboardInterrupt, w') /\
    set_commands (trace w') = set_commands (trace w) /\
    lamps w' = lamps w /\
    timeline w' = [].
Proof.
  destruct w as [clk z sg svc lmp tl tr]. simpl. intros -> -> Hk.
  assert (Hcases : k = 0%nat \/ k = 1%nat) by lia.
  destruct Hcases as [-> | ->].
  - eexists. split; [reflexivity|]. simpl. repeat split.
  - eexists. split; [reflexivity|]. simpl. repeat split.
Qed.

Lemma interrupt_in_refill_skips_restore_witness :
  exists w',
    main_loop 1 [1; 2] [1; 2] [(1, true, COLOR_NEUTRAL_LIGHT); (2, false, (0, 0, 0, 0))]
      (set_sigint (Some 1%nat) (sample_world (hours 12) (always (hours 10) (hours 24))))
    = (Raise KeyboardInterrupt, w') /\
    set_commands (trace w') = [] /\
    lamps w' = (fun _ => dark) /\
    timeline w' = [].
Proof.
  apply (interrupt_in_refill_skips_restore 0 [1; 2] [1; 2]
           [(1, true, COLOR_NEUTRAL_LIGHT); (2, false, (0, 0, 0, 0))]
           (set_sigint (Some 1%nat)
              (sample_world (hours 12) (always (hours 10) (hours 24)))) 1%nat);
    [reflexivity|reflexivity|lia].
Defined.

(** * Further properties *)

(** ** Order of arrival in the timeline *)

Lemma ascending_app_inv a b :
  ascending (a ++ b) ->
  forall x y, In x a -> In y b -> TimeEvent.time x <= TimeEvent.time y.
Proof.
  induction a as [|h a IH]; intros Hasc x y Hx Hy; [destruct Hx|].
  simpl in Hasc. inversion Hasc as [|? ? Hall Hrest]; subst.
  destruct Hx as [<-|Hx].
  - rewrite Forall_forall in Hall. apply Hall, in_or_app. now right.
  - now apply IH.
Qed.

Lemma insort_after_all x l :
  Forall (fun e => TimeEvent.time e <= TimeEvent.time x) l -> insort x l = l ++ [x].
Proof.
  induction 1 as [|h l Hh Hl IH]; [reflexivity|].
  simpl. unfold TimeEvent.lt. decide_ltb. now rewrite IH.
Qed.

Lemma fold_insort_ascending_id l :
  forall acc, ascending (acc ++ l) ->
              fold_left (fun sorted ev => insort ev sorted) l acc = acc ++ l.
Proof.
  induction l as [|x l IH]; intros acc Hasc; simpl.
  - now rewrite app_nil_r.
  - rewrite insort_after_all.
    + rewrite IH; rewrite <- app_assoc; [reflexivity|exact Hasc].
    + apply Forall_forall. intros e He.
      apply (ascending_app_inv acc (x :: l) Hasc); [exact He|now left].
Qed.

(** Sorting a sorted timeline changes nothing: events with equal times
    keep their places. *)
Lemma sort_ascending_id l : ascending l -> sort l = l.
Proof. intros H. apply (fold_insort_ascending_id l []). exact H. Qed.

Lemma sort_snoc l ev : sort (l ++ [ev]) = insort ev (sort l).
Proof. unfold sort. now rewrite fold_left_app. Qed.

Lemma insort_split ev l :
  ascending l ->
  exists before after,
    l = before ++ after /\ insort ev l = before ++ ev :: after /\
    Forall (fun e => TimeEvent.time e <= TimeEvent.time ev) before /\
    Forall (fun e => TimeEvent.time ev < TimeEvent.time e) after.
Proof.
  induction 1 as [|x l Hx Hl IH].
  - exists [], []. repeat split; constructor.
  - simpl. unfold TimeEvent.lt.
    destruct (Z.ltb_spec (TimeEvent.time ev) (TimeEvent.time x)) as [Hlt|Hge].
    + exists [], (x :: l). repeat split; [constructor|].
      constructor; [exact Hlt|].
      eapply Forall_impl; [|exact Hx]. unfold earlier. intros; lia.
    + destruct IH as (before & after & -> & Hins & Hb & Ha).
      exists (x :: before), after. rewrite Hins. repeat split; [|exact Ha].
      constructor; assumption.
Qed.

(** X1: on a sorted timeline [insert] puts the new event behind every
    event that is due at the same time or earlier and in front of every
    event that is due later, and moves no other event. *)
Theorem insert_keeps_arrival_order ev w :
  ascending (timeline w) ->
  exists before after w',
    Timeline.insert ev w = (Ok tt, w') /\
    timeline w = before ++ after /\
    timeline w' = before ++ ev :: after /\
    Forall (fun e => TimeEvent.time e <= TimeEvent.time ev) before /\
    Forall (fun e => TimeEvent.time ev < TimeEvent.time e) after.
Proof.
  intros Hasc.
  destruct (insort_split ev (timeline w) Hasc) as (before & after & Hl & Hins & Hb & Ha).
  exists before, after. eexists. split; [reflexivity|].
  split; [exact Hl|]. split; [|split; assumption].
  simpl. now rewrite sort_snoc, (sort_ascending_id _ Hasc).
Qed.

Lemma insert_keeps_arrival_order_witness :
  exists w',
    Timeline.insert (sample_event "second" (hours 18))
      (set_timeline [sample_event "first" (hours 18); sample_event "late" (hours 21)]
         (sample_world (hours 12) (fun _ => Unreachable))) = (Ok tt, w') /\
    timeline w' = [sample_event "first" (hours 18); sample_event "second" (hours 18);
                   sample_event "late" (hours 21)].
Proof.
  destruct (insert_keeps_arrival_order (sample_event "second" (hours 18))
              (set_timeline [sample_event "first" (hours 18);
                             sample_event "late" (hours 21)]
                 (sample_world (hours 12) (fun _ => Unreachable))))
    as (before & after & w' & Hrun & _).
  - repeat constructor; unfold earlier; simpl; vm_compute; discriminate.
  - exists w'. split; [exact Hrun|].
    vm_compute in Hrun. inversion Hrun. reflexivity.
Defined.

(** X2: on a sorted timeline, an event due before everything queued that
    is inserted and popped at once comes back, and the timeline is again
    what it was. *)
Theorem insert_pop_roundtrip ev w :
  sigint w = None ->
  ascending (timeline w) ->
  Forall (fun e => TimeEvent.time ev < TimeEvent.time e) (timeline w) ->
  exists w',
    (Timeline.insert ev ;; Timeline.pop None) w = (Ok ev, w') /\
    timeline w' = timeline w.
Proof.
  intros Hquiet Hasc Hall.
  assert (Hhead : sort (timeline w ++ [ev]) = ev :: timeline w).
  { rewrite sort_snoc, (sort_ascending_id _ Hasc).
    destruct (timeline w) as [|x l]; [reflexivity|].
    simpl. unfold TimeEvent.lt. inversion Hall; subst. now decide_ltb. }
  unfold bind at 1.
  change (Timeline.insert ev w)
    with (Ok tt, set_timeline (sort (timeline w ++ [ev])) (set_timeline (timeline w ++ [ev]) w)).
  cbv beta iota.
  apply pop_returns; [simpl; exact Hhead|exact Hquiet].
Qed.

Lemma insert_pop_roundtrip_witness :
  exists w',
    (Timeline.insert (sample_event "early" (hours 18)) ;; Timeline.pop None)
      (set_timeline [sample_event "late" (hours 21)]
         (sample_world (hours 12) (fun _ => Unreachable)))
    = (Ok (sample_event "early" (hours 18)), w') /\
    timeline w' = [sample_event "late" (hours 21)].
Proof.
  apply (insert_pop_roundtrip (sample_event "early" (hours 18))
           (set_timeline [sample_event "late" (hours 21)]
              (sample_world (hours 12) (fun _ => Unreachable))) eq_refl).
  - repeat constructor.
  - repeat constructor.
Defined.

(** ** Waiting *)

(** X3: [sleep_until] without a timeout and with no interrupt on its way
    returns, having slept for the time that was left when the instant is
    in the future and not at all otherwise; the clock ends at the later of
    the two instants.  It never asks [time.sleep] for a negative length. *)
Theorem sleep_until_reaches t w :
  sigint w = None ->
  exists w',
    sleep_until t None w = (Ok tt, w') /\
    clock w' = Z.max (clock w) t /\
    trace w' = trace w ++ (if clock w <? t then [Sleep (t - clock w)] else []) /\
    timeline w' = timeline w /\ lamps w' = lamps w.
Proof.
  destruct w as [clk z sg svc lmp tl tr]. simpl. intros ->.
  unfold sleep_until, utc_now, bind, gets, checkpoint, ret. simpl.
  destruct (Z.ltb_spec clk t) as [Hfuture|Hpast].
  - unfold sleep. decide_ltb. simpl.
    eexists. split; [reflexivity|]. simpl. repeat split. lia.
  - decide_ltb. eexists. split; [reflexivity|]. simpl.
    rewrite app_nil_r. repeat split. lia.
Qed.

Lemma sleep_until_reaches_witness :
  exists w',
    sleep_until (hours 21) None (sample_world (hours 12) (fun _ => Unreachable))
    = (Ok tt, w') /\
    clock w' = hours 21.
Proof.
  destruct (sleep_until_reaches (hours 21)
              (sample_world (hours 12) (fun _ => Unreachable)) eq_refl)
    as (w' & Hrun & Hclock & _).
  exists w'. split; [exact Hrun|exact Hclock].
Defined.

Lemma bind_ext_ok {A B} (m : M A) (k k' : A -> M B) w :
  (forall a w', m w = (Ok a, w') -> k a w' = k' a w') -> bind m k w = bind m k' w.
Proof.
  intros H. unfold bind. destruct (m w) as [[a|e] w'] eqn:Hm; [now apply H|reflexivity].
Qed.

Lemma sleep_until_long_timeout t d w :
  t - clock w <= d -> sleep_until t (Some d) w = sleep_until t None w.
Proof.
  intros Hlong. unfold sleep_until. apply bind_ext_ok. intros now w1 Hnow.
  apply utc_now_ok in Hnow. destruct Hnow as [-> _].
  replace (d <? t - clock w) with false by (symmetry; apply Z.ltb_ge; lia).
  now rewrite andb_false_r.
Qed.

(** X4: a timeout that is not shorter than the wait for the head of the
    timeline changes nothing: [pop] does what it does without a timeout,
    whatever the state of the world. *)
Theorem pop_long_timeout w ev rest d :
  timeline w = ev :: rest ->
  TimeEvent.time ev - clock w <= d ->
  Timeline.pop (Some d) w = Timeline.pop None w.
Proof.
  intros Htl Hlong. unfold Timeline.pop. apply bind_ext_ok. intros head w1 Hhead.
  unfold Timeline.first, bind, gets in Hhead. rewrite Htl in Hhead.
  unfold ret in Hhead. inversion Hhead; subst.
  unfold bind. now rewrite (sleep_until_long_timeout _ _ _ Hlong).
Qed.

Lemma pop_long_timeout_witness :
  Timeline.pop (Some (hours 10))
    (set_timeline [sample_event "late" (hours 21)]
       (sample_world (hours 12) (fun _ => Unreachable)))
  = Timeline.pop None
      (set_timeline [sample_event "late" (hours 21)]
         (sample_world (hours 12) (fun _ => Unreachable))).
Proof.
  apply (pop_long_timeout
           (set_timeline [sample_event "late" (hours 21)]
              (sample_world (hours 12) (fun _ => Unreachable)))
           (sample_event "late" (hours 21)) [] (hours 10)).
  - reflexivity.
  - vm_compute. discriminate.
Defined.

(** ** Triggering and printing events *)

(** X5: [trigger] prints the event and then applies its state to the
    lamps.  The fade of the commands is the one passed to [trigger] when
    that is not zero; with no fade passed, or a fade of zero, it is the
    fade of the event itself, so a trigger cannot ask for an immediate
    change of an event that has a fade. *)
Theorem trigger_fade self lights fade_arg w :
  sigint w = None ->
  exists w' ms,
    TimeEventOps.trigger self lights fade_arg w = (Ok tt, w') /\
    trace w' = trace w ++ event_line (tz w) self ::
      (if LampState.power (TimeEvent.state self)
       then [GroupSetPower lights true ms; Sleep settle;
             GroupSetColor lights (LampState.color (TimeEvent.state self)) ms]
       else [GroupSetColor lights (LampState.color (TimeEvent.state self)) ms;
             Sleep settle; GroupSetPower lights false ms]) /\
    (fade_arg = None \/ fade_arg = Some 0 -> ms = duration_ms (TimeEvent.fade self)) /\
    (forall d, fade_arg = Some d -> d <> 0 -> ms = duration_ms d).
Proof.
  destruct w as [clk z sg svc lmp tl tr]. simpl. intros ->.
  set (fade := match fade_arg with
               | Some d => if d =? 0 then TimeEvent.fade self else d
               | None => TimeEvent.fade self
               end).
  exists (snd (TimeEventOps.trigger self lights fade_arg
                 {| clock := clk; tz := z; sigint := None; service := svc;
                    lamps := lmp; timeline := tl; trace := tr |})),
    (duration_ms fade).
  unfold TimeEventOps.trigger, LampStateOps.apply. fold fade.
  split; [|split; [|split]].
  - destruct (LampState.power (TimeEvent.state self)); reflexivity.
  - destruct (LampState.power (TimeEvent.state self)); simpl;
      rewrite <- !app_assoc; reflexivity.
  - intros [-> | ->]; reflexivity.
  - intros d -> Hd. subst fade. apply Z.eqb_neq in Hd. now rewrite Hd.
Qed.

Lemma trigger_fade_witness :
  exists w',
    TimeEventOps.trigger (sample_event "late" (hours 21)) [1; 2] (Some 0)
      (sample_world (hours 21) (fun _ => Unreachable)) = (Ok tt, w') /\
    trace w' =
      [event_line (fixed_zone (hours (-4))) (sample_event "late" (hours 21));
       GroupSetPower [1; 2] true 4000; Sleep settle;
       GroupSetColor [1; 2] COLOR_NIGHT_LIGHT 4000].
Proof.
  destruct (trigger_fade (sample_event "late" (hours 21)) [1; 2] (Some 0)
              (sample_world (hours 21) (fun _ => Unreachable)) eq_refl)
    as (w' & ms & Hrun & Htrace & Hown & _).
  exists w'. split; [exact Hrun|].
  rewrite Htrace, (Hown (or_intror eq_refl)). reflexivity.
Defined.

Lemma print_all_lines evs :
  forall w, sigint w = None ->
  exists w', Timeline.print_all evs w = (Ok tt, w') /\
             trace w' = trace w ++ map (event_line (tz w)) evs /\
             sigint w' = None /\ timeline w' = timeline w /\ tz w' = tz w /\
             clock w' = clock w /\ lamps w' = lamps w.
Proof.
  induction evs as [|ev rest IH]; intros w Hquiet.
  - exists w. simpl. rewrite app_nil_r. repeat split. exact Hquiet.
  - cbn [Timeline.print_all]. unfold bind at 1.
    unfold TimeEventOps.print, bind at 1, gets, print.
    rewrite (perform_quiet _ w Hquiet).
    destruct (IH (log (event_line (tz w) ev) w) Hquiet)
      as (w' & Hrun & Htrace & Hq & Htl & Hz & Hc & Hl).
    exists w'. split; [exact Hrun|]. simpl in *.
    rewrite Htrace, <- app_assoc. repeat split; assumption.
Qed.

(** X6: [Timeline.print] writes one line for each event queued, in the
    order of the timeline, and changes nothing but the output. *)
Theorem timeline_print_lines w :
  sigint w = None ->
  exists w',
    Timeline.print w = (Ok tt, w') /\
    trace w' = trace w ++ map (event_line (tz w)) (timeline w) /\
    timeline w' = timeline w /\ clock w' = clock w /\ lamps w' = lamps w.
Proof.
  intros Hquiet. unfold Timeline.print, bind, gets.
  destruct (print_all_lines (timeline w) w Hquiet)
    as (w' & Hrun & Htrace & _ & Htl & _ & Hc & Hl).
  exists w'. repeat split; assumption.
Qed.

Lemma timeline_print_lines_witness :
  exists w',
    Timeline.print
      (set_timeline [sample_event "early" (hours 18); sample_event "late" (hours 21)]
         (sample_world (hours 12) (fun _ => Unreachable))) = (Ok tt, w') /\
    trace w' = [Print (TimedEvent "early" (hours 14) "Night Lights");
                Print (TimedEvent "late" (hours 17) "Night Lights")].
Proof.
  destruct (timeline_print_lines
              (set_timeline [sample_event "early" (hours 18);
                             sample_event "late" (hours 21)]
                 (sample_world (hours 12) (fun _ => Unreachable))) eq_refl)
    as (w' & Hrun & Htrace & _).
  exists w'. split; [exact Hrun|]. rewrite Htrace. reflexivity.
Defined.

(** ** Lamp states *)

(** X7: [equals] holds of two lamp states exactly when they have the same
    power and the same color; their names play no part.  It is an
    equivalence. *)
Theorem equals_power_and_color :
  (forall a b, LampStateOps.equals a b = true <->
               LampState.power a = LampState.power b /\
               LampState.color a = LampState.color b) /\
  (forall a, LampStateOps.equals a a = true) /\
  (forall a b, LampStateOps.equals a b = LampStateOps.equals b a) /\
  (forall a b c, LampStateOps.equals a b = true -> LampStateOps.equals b c = true ->
                 LampStateOps.equals a c = true).
Proof.
  assert (Hiff : forall a b, LampStateOps.equals a b = true <->
                             LampState.power a = LampState.power b /\
                             LampState.color a = LampState.color b).
  { intros a b. unfold LampStateOps.equals.
    rewrite andb_true_iff, color_eqb_eq, eqb_true_iff. reflexivity. }
  split; [exact Hiff|]. split; [|split].
  - intros a. now apply Hiff.
  - intros a b.
    destruct (LampStateOps.equals a b) eqn:Hab, (LampStateOps.equals b a) eqn:Hba;
      try reflexivity.
    + apply Hiff in Hab. destruct Hab as [Hp Hc].
      assert (LampStateOps.equals b a = true) by (apply Hiff; split; congruence).
      congruence.
    + apply Hiff in Hba. destruct Hba as [Hp Hc].
      assert (LampStateOps.equals a b = true) by (apply Hiff; split; congruence).
      congruence.
  - intros a b c Hab Hbc. apply Hiff in Hab, Hbc. apply Hiff.
    destruct Hab, Hbc. split; congruence.
Qed.

(** ** Local time *)

(** X8: [utc_datetime] and [astimezone] are inverse to each other: the
    instant built from a local date and a time of day shows that date and
    that time on the local clock, in every zone whose offset at that
    instant is the one [mktime] used.  A zone with one offset is such a
    zone. *)
Theorem utc_datetime_roundtrip d t w :
  0 <= t < usec_per_day ->
  utcoffset (tz w) (mktime (tz w) (d * usec_per_day + t))
  = d * usec_per_day + t - mktime (tz w) (d * usec_per_day + t) ->
  exists u,
    utc_datetime (DateObject d) t w = (Ok u, w) /\
    local_date (tz w) u = d /\ local_time (tz w) u = t.
Proof.
  intros Ht Hzone. eexists. split; [reflexivity|].
  unfold local_date, local_time, wall_clock. rewrite Hzone.
  replace (mktime (tz w) (d * usec_per_day + t)
           + (d * usec_per_day + t - mktime (tz w) (d * usec_per_day + t)))
    with (t + d * usec_per_day) by lia.
  assert (Hday : usec_per_day <> 0) by (vm_compute; discriminate).
  rewrite Z.div_add, Z.mod_add by exact Hday.
  rewrite Z.div_small, Z.mod_small by exact Ht. split; reflexivity.
Qed.

Lemma utc_datetime_roundtrip_witness :
  exists u,
    utc_datetime (DateObject 3) (_time 21 0 0)
      (sample_world (hours 12) (fun _ => Unreachable))
    = (Ok u, sample_world (hours 12) (fun _ => Unreachable)) /\
    local_date (fixed_zone (hours (-4))) u = 3 /\
    local_time (fixed_zone (hours (-4))) u = _time 21 0 0.
Proof.
  apply (utc_datetime_roundtrip 3 (_time 21 0 0)
           (sample_world (hours 12) (fun _ => Unreachable))).
  - vm_compute. split; [discriminate|reflexivity].
  - vm_compute. reflexivity.
Defined.

(** ** The request *)

(** X9: with no interrupt on its way [request_sunrise_sunset] sends one
    GET whatever the reply.  It returns exactly when the reply holds two
    timestamps, and then returns those; any other reply makes it raise an
    exception of class [Exception], also a reply whose sunset is good and
    whose sunrise is missing or unreadable. *)
Theorem request_returns_iff_usable lat lng date w :
  sigint w = None ->
  trace (snd (request_sunrise_sunset lat lng date w))
  = trace w ++ [HttpGet (request_for lat lng date)] /\
  (forall sunrise sunset,
      fst (request_sunrise_sunset lat lng date w) = Ok (sunrise, sunset) <->
      service w (request_for lat lng date) = Results (Stamp sunrise) (Stamp sunset)) /\
  (usable (service w (request_for lat lng date)) = false ->
   exists e, fst (request_sunrise_sunset lat lng date w) = Raise e /\
             is_Exception e = true).
Proof.
  intros Hquiet.
  destruct (usable (service w (request_for lat lng date))) eqn:Hu.
  - destruct (service w (request_for lat lng date)) as [| | |[| |t1] [| |t2]] eqn:Hs;
      try discriminate.
    rewrite (request_ok _ _ _ _ Hquiet _ _ Hs). simpl.
    split; [reflexivity|]. split; [|discriminate].
    intros sunrise sunset. split; intros H; inversion H; reflexivity.
  - destruct (request_fails _ _ _ _ Hquiet Hu) as (e & Hfail & He).
    rewrite Hfail. simpl. split; [reflexivity|]. split.
    + intros sunrise sunset. split; [discriminate|].
      intros Hs. rewrite Hs in Hu. discriminate.
    + intros _. now exists e.
Qed.

Lemma request_returns_iff_usable_witness :
  fst (request_sunrise_sunset LATITUDE LONGITUDE (hours 12)
         (sample_world (hours 12) (fun _ => Results Missing (Stamp (hours 24)))))
  <> Ok (hours 10, hours 24) /\
  exists e,
    fst (request_sunrise_sunset LATITUDE LONGITUDE (hours 12)
           (sample_world (hours 12) (fun _ => Results Missing (Stamp (hours 24)))))
    = Raise e /\ is_Exception e = true.
Proof.
  destruct (request_returns_iff_usable LATITUDE LONGITUDE (hours 12)
              (sample_world (hours 12) (fun _ => Results Missing (Stamp (hours 24))))
              eq_refl) as (_ & Hiff & Hbad).
  split.
  - intros H. apply Hiff in H. discriminate.
  - apply Hbad. reflexivity.
Defined.

(** X10: with no interrupt on its way [get_sunset_or_default] returns a
    datetime exactly when the reply of the service holds two timestamps;
    it is then the sunset of the reply, one GET has been sent and nothing
    has been printed. *)
Theorem get_sunset_or_default_returns_reply lat lng date w sunset w' :
  sigint w = None ->
  (get_sunset_or_default lat lng date w = (Ok sunset, w') <->
   (exists sunrise,
       service w (request_for lat lng date) = Results (Stamp sunrise) (Stamp sunset)) /\
   w' = log (HttpGet (request_for lat lng date)) w).
Proof.
  intros Hquiet. split.
  - intros Hrun.
    destruct (get_sunset_or_default_ok_inv _ _ _ _ _ _ Hrun) as (sunrise & Hreq).
    destruct (usable (service w (request_for lat lng date))) eqn:Hu.
    + destruct (service w (request_for lat lng date)) as [| | |[| |t1] [| |t2]] eqn:Hs;
        try discriminate.
      rewrite (request_ok _ _ _ _ Hquiet _ _ Hs) in Hreq. inversion Hreq; subst.
      split; [now exists sunrise|reflexivity].
    + destruct (request_fails _ _ _ _ Hquiet Hu) as (e & Hfail & _).
      rewrite Hfail in Hreq. discriminate.
  - intros [(sunrise & Hs) ->].
    unfold get_sunset_or_default, try_except, bind.
    now rewrite (request_ok _ _ _ _ Hquiet _ _ Hs).
Qed.

Lemma get_sunset_or_default_returns_reply_witness :
  get_sunset_or_default LATITUDE LONGITUDE (hours 12)
    (sample_world (hours 12) (always (hours 10) (hours 24)))
  = (Ok (hours 24),
     log (HttpGet (request_for LATITUDE LONGITUDE (hours 12)))
       (sample_world (hours 12) (always (hours 10) (hours 24)))).
Proof.
  apply (get_sunset_or_default_returns_reply LATITUDE LONGITUDE (hours 12)
           (sample_world (hours 12) (always (hours 10) (hours 24))) (hours 24)
           (log (HttpGet (request_for LATITUDE LONGITUDE (hours 12)))
              (sample_world (hours 12) (always (hours 10) (hours 24)))) eq_refl).
  split; [now exists (hours 10)|reflexivity].
Defined.

(** ** Saving and restoring, end to end *)

Lemma set_commands_queries devices :
  set_commands (flat_map (fun d => [GetPower d; GetColor d]) devices) = [].
Proof. induction devices as [|d rest IH]; [reflexivity|exact IH]. Qed.

(** X11: [save_current_states] with no interrupt on its way.  When every
    device of the list is a light it returns one entry for each device,
    in the order of the list, holding the address of the device and the
    power and the color it answers; it asks each device twice.  When some
    device of the list is not a light it returns nothing: the lights
    before the first such device are asked, that device is asked for its
    power, and the call of [get_color], which it does not have, raises
    [AttributeError].  Either way no command is sent and no lamp
    changes. *)
Theorem save_current_states_records devices w :
  sigint w = None ->
  (all_lights w devices ->
   exists w1,
     save_current_states devices w
     = (Ok (map (fun d => (d, lamp_power (lamps w d), lamp_color (lamps w d))) devices),
        w1) /\
     trace w1 = trace w ++ flat_map (fun d => [GetPower d; GetColor d]) devices /\
     set_commands (trace w1) = set_commands (trace w) /\
     lamps w1 = lamps w /\ timeline w1 = timeline w /\ clock w1 = clock w) /\
  (forall lights dev rest,
      devices = lights ++ dev :: rest -> all_lights w lights ->
      is_light (lamps w dev) = false ->
      exists w1,
        save_current_states devices w = (Raise AttributeError, w1) /\
        trace w1 = trace w ++ flat_map (fun d => [GetPower d; GetColor d]) lights
                     ++ [GetPower dev] /\
        set_commands (trace w1) = set_commands (trace w) /\
        lamps w1 = lamps w /\ timeline w1 = timeline w /\ clock w1 = clock w).
Proof.
  intros Hquiet. split.
  - intros Hlights.
    destruct (save_current_states_spec devices w Hquiet Hlights)
      as (w1 & Hrun & _ & Hl & Hc & Ht & _ & _ & Htr).
    exists w1. split; [exact Hrun|]. split; [exact Htr|].
    rewrite Htr, set_commands_app, set_commands_queries, app_nil_r.
    repeat split; assumption.
  - intros lights dev rest -> Hlights Hdev.
    destruct (save_current_states_stops lights dev rest w Hquiet Hlights Hdev)
      as (w1 & Hrun & _ & Hl & Hc & Ht & Htr).
    exists w1. split; [exact Hrun|]. split; [exact Htr|].
    rewrite Htr, !set_commands_app, set_commands_queries.
    simpl. rewrite app_nil_r. repeat split; assumption.
Qed.

Lemma save_current_states_records_witness :
  (exists w1,
      save_current_states [1; 2] (one_lit (hours 12))
      = (Ok [(1, true, COLOR_NEUTRAL_LIGHT); (2, false, (0, 0, 0, 0))], w1) /\
      trace w1 = [GetPower 1; GetColor 1; GetPower 2; GetColor 2]) /\
  (exists w1,
      save_current_states [1; 9; 2] (with_plug (one_lit (hours 12)))
      = (Raise AttributeError, w1) /\
      trace w1 = [GetPower 1; GetColor 1; GetPower 9]).
Proof.
  split.
  - destruct (proj1 (save_current_states_records [1; 2] (one_lit (hours 12)) eq_refl))
      as (w1 & Hrun & Htrace & _).
    + intros d [<-|[<-|[]]]; reflexivity.
    + exists w1. split; [exact Hrun|exact Htrace].
  - destruct (proj2 (save_current_states_records [1; 9; 2]
                       (with_plug (one_lit (hours 12))) eq_refl) [1] 9 [2])
      as (w1 & Hrun & Htrace & _).
    + reflexivity.
    + intros d [<-|[]]. reflexivity.
    + reflexivity.
    + exists w1. split; [exact Hrun|exact Htrace].
Defined.

Lemma restore_commands_none cur dev s :
  lamp_of_saved s = cur dev -> restore_commands cur (dev, s) = [].
Proof.
  intros H. unfold restore_commands. rewrite <- H. simpl.
  rewrite eqb_reflx.
  now rewrite (proj2 (color_eqb_eq (saved_color s) (saved_color s)) eq_refl).
Qed.

(** The loop on lamps that are all in their saved states. *)
Lemma reset_from_noop devices :
  forall pre post w,
    sigint w = None -> (List.length devices <= List.length post)%nat ->
    (forall d s, In (d, s) (List.combine devices post) -> lamp_of_saved s = lamps w d) ->
    exists w',
      reset_from (List.length pre) devices (pre ++ post) w = (Ok tt, w') /\
      sigint w' = None /\
      set_commands (trace w') = set_commands (trace w) /\
      (forall d, lamps w' d = lamps w d).
Proof.
  induction devices as [|dev rest IH]; intros pre post w Hquiet Hlen Hsame.
  - exists w. repeat split. exact Hquiet.
  - destruct post as [|s post]; [simpl in Hlen; lia|].
    assert (Hnth : nth_error (pre ++ s :: post) (List.length pre) = Some s).
    { rewrite nth_error_app2 by lia. now rewrite Nat.sub_diag. }
    assert (Hlight : is_light (lamps w dev) = true).
    { now rewrite <- (Hsame dev s (or_introl eq_refl)). }
    destruct (reset_from_step (List.length pre) dev rest _ s w Hquiet Hlight Hnth)
      as (w1 & Hstep & Hquiet1 & Htrace1 & Hdev1 & Hother1).
    assert (Hlamps1 : forall d, lamps w1 d = lamps w d).
    { intros d. destruct (Z.eq_dec d dev) as [->|Hd]; [|now apply Hother1].
      rewrite Hdev1. apply Hsame. now left. }
    destruct (IH (pre ++ [s]) post w1 Hquiet1) as (w' & Hrun & Hquiet' & Htrace & Hl).
    { simpl in Hlen. lia. }
    { intros d s' Hd. rewrite Hlamps1. apply Hsame. now right. }
    exists w'. rewrite Hstep.
    replace (S (List.length pre)) with (List.length (pre ++ [s]))
      by (rewrite length_app; simpl; lia).
    replace (pre ++ s :: post) with ((pre ++ [s]) ++ post)
      by (rewrite <- app_assoc; reflexivity).
    split; [exact Hrun|]. split; [exact Hquiet'|]. split.
    + rewrite Htrace, Htrace1, restore_commands_none, app_nil_r; [reflexivity|].
      apply Hsame. now left.
    + intros d. now rewrite Hl.
Qed.

(** X12: restoring right after saving does nothing: with no interrupt on
    its way, [reset_device_states] on the list and the entries of a
    [save_current_states] that has just returned sends no command and
    leaves every lamp as it is, whether or not a device is listed twice. *)
Theorem save_then_restore_sends_nothing devices w saved w1 :
  sigint w = None ->
  save_current_states devices w = (Ok saved, w1) ->
  exists w2,
    reset_device_states devices saved w1 = (Ok tt, w2) /\
    set_commands (trace w2) = set_commands (trace w) /\
    (forall d, lamps w2 d = lamps w d).
Proof.
  intros Hquiet Hsave.
  pose proof (save_current_states_lights devices w saved w1 Hquiet Hsave) as Hlights.
  destruct (save_current_states_spec devices w Hquiet Hlights)
    as (w1' & Hrun & Hq1 & Hl1 & _ & _ & _ & _ & Htr1).
  rewrite Hrun in Hsave. inversion Hsave; subst; clear Hsave.
  set (entry := fun d : mac => (d, lamp_power (lamps w d), lamp_color (lamps w d))).
  destruct (reset_from_noop devices [] (map entry devices) w1 Hq1)
    as (w2 & Hreset & _ & Htrace & Hl).
  { rewrite length_map. lia. }
  { intros d s Hds. pose proof (in_combine_l _ _ _ _ Hds) as Hd.
    apply in_combine_map in Hds. subst s. rewrite Hl1.
    unfold lamp_of_saved, entry, saved_power, saved_color. simpl.
    specialize (Hlights d Hd). destruct (lamps w d). simpl in Hlights. now subst. }
  exists w2. split; [exact Hreset|]. split.
  - now rewrite Htrace, Htr1, set_commands_app, set_commands_queries, app_nil_r.
  - intros d. now rewrite Hl, Hl1.
Qed.

Lemma save_then_restore_sends_nothing_witness :
  exists w2,
    reset_device_states [1; 2; 1]
      [(1, true, COLOR_NEUTRAL_LIGHT); (2, false, (0, 0, 0, 0));
       (1, true, COLOR_NEUTRAL_LIGHT)]
      (snd (save_current_states [1; 2; 1] (one_lit (hours 12)))) = (Ok tt, w2) /\
    set_commands (trace w2) = [].
Proof.
  destruct (save_then_restore_sends_nothing [1; 2; 1] (one_lit (hours 12))
              [(1, true, COLOR_NEUTRAL_LIGHT); (2, false, (0, 0, 0, 0));
               (1, true, COLOR_NEUTRAL_LIGHT)]
              (snd (save_current_states [1; 2; 1] (one_lit (hours 12))))
              eq_refl) as (w2 & Hrun & Htrace & _).
  - vm_compute. reflexivity.
  - exists w2. split; [exact Hrun|exact Htrace].
Defined.

(** The loop on a list of lights without duplicates leaves each device in
    the state of its entry and touches no device outside the list. *)
Lemma reset_from_reaches devices :
  forall pre post w,
    sigint w = None -> all_lights w devices ->
    (List.length devices <= List.length post)%nat ->
    NoDup devices ->
    exists w',
      reset_from (List.length pre) devices (pre ++ post) w = (Ok tt, w') /\
      sigint w' = None /\
      (forall d, ~ In d devices -> lamps w' d = lamps w d) /\
      (forall d s, In (d, s) (List.combine devices post) -> lamps w' d = lamp_of_saved s).
Proof.
  induction devices as [|dev rest IH]; intros pre post w Hquiet Hall Hlen Hnodup.
  - exists w. repeat split; [exact Hquiet|]. intros d s [].
  - destruct post as [|s post]; [simpl in Hlen; lia|].
    inversion Hnodup as [|? ? Hnotin Hnodup']; subst.
    assert (Hnth : nth_error (pre ++ s :: post) (List.length pre) = Some s).
    { rewrite nth_error_app2 by lia. now rewrite Nat.sub_diag. }
    destruct (reset_from_step (List.length pre) dev rest _ s w Hquiet
                (Hall dev (or_introl eq_refl)) Hnth)
      as (w1 & Hstep & Hquiet1 & _ & Hdev1 & Hother1).
    destruct (IH (pre ++ [s]) post w1 Hquiet1
                (all_lights_step _ _ _ _ _ Hall Hdev1 Hother1))
      as (w' & Hrun & Hquiet' & Hout & Hin);
      [simpl in Hlen; lia|exact Hnodup'|].
    exists w'. rewrite Hstep.
    replace (S (List.length pre)) with (List.length (pre ++ [s]))
      by (rewrite length_app; simpl; lia).
    replace (pre ++ s :: post) with ((pre ++ [s]) ++ post)
      by (rewrite <- app_assoc; reflexivity).
    split; [exact Hrun|]. split; [exact Hquiet'|]. split.
    + intros d Hd. rewrite Hout by (intros Hr; apply Hd; now right).
      apply Hother1. intros ->. apply Hd. now left.
    + intros d s' [Hhead|Htail].
      * inversion Hhead; subst. now rewrite Hout.
      * now apply Hin.
Qed.

(** X13: restoring is idempotent.  With no interrupt on its way, every
    device a light listed once and an entry for each, [reset_device_states]
    returns, and run again at once it sends no command and changes no
    lamp. *)
Theorem reset_device_states_idempotent devices saved w :
  sigint w = None -> all_lights w devices -> NoDup devices ->
  (List.length devices <= List.length saved)%nat ->
  exists w1 w2,
    reset_device_states devices saved w = (Ok tt, w1) /\
    reset_device_states devices saved w1 = (Ok tt, w2) /\
    set_commands (trace w2) = set_commands (trace w1) /\
    (forall d, lamps w2 d = lamps w1 d).
Proof.
  intros Hquiet Hlights Hnodup Hlen.
  destruct (reset_from_reaches devices [] saved w Hquiet Hlights Hlen Hnodup)
    as (w1 & Hrun1 & Hquiet1 & _ & Hreached).
  destruct (reset_from_noop devices [] saved w1 Hquiet1 Hlen)
    as (w2 & Hrun2 & _ & Htrace & Hl).
  { intros d s Hds. symmetry. now apply Hreached. }
  exists w1, w2. repeat split; assumption.
Qed.

Lemma reset_device_states_idempotent_witness :
  exists w1 w2,
    reset_device_states [1; 2]
      [(1, true, COLOR_NEUTRAL_LIGHT); (2, true, COLOR_NIGHT_LIGHT)]
      (sample_world (hours 12) (fun _ => Unreachable)) = (Ok tt, w1) /\
    reset_device_states [1; 2]
      [(1, true, COLOR_NEUTRAL_LIGHT); (2, true, COLOR_NIGHT_LIGHT)] w1 = (Ok tt, w2) /\
    set_commands (trace w2) = set_commands (trace w1).
Proof.
  destruct (reset_device_states_idempotent [1; 2]
              [(1, true, COLOR_NEUTRAL_LIGHT); (2, true, COLOR_NIGHT_LIGHT)]
              (sample_world (hours 12) (fun _ => Unreachable)) eq_refl)
    as (w1 & w2 & Hrun1 & Hrun2 & Htrace & _).
  - intros d _. reflexivity.
  - repeat constructor; simpl; intuition lia.
  - simpl. lia.
  - exists w1, w2. repeat split; assumption.
Defined.

Lemma and_then_bind {A B C} (m : M A) (k : A -> M B) (k2 : B -> M C) w :
  and_then (bind m k w) k2 = bind m (fun a w' => and_then (k a w') k2) w.
Proof. unfold bind, and_then. destruct (m w) as [[a|e] w']; reflexivity. Qed.

(** The loop on a list in two parts is the loop on the first part followed
    by the loop on the second. *)
Lemma reset_from_app a b saved :
  forall i w,
    reset_from i (a ++ b) saved w
    = and_then (reset_from i a saved w)
        (fun _ => reset_from (i + List.length a) b saved).
Proof.
  induction a as [|dev a IH]; intros i w.
  - simpl. now rewrite Nat.add_0_r.
  - cbn [reset_from app]. rewrite and_then_bind.
    apply bind_ext; intros s w1. rewrite and_then_bind.
    apply bind_ext; intros p w2. rewrite and_then_bind.
    apply bind_ext; intros c w3. rewrite and_then_bind.
    apply bind_ext; intros [] w4. rewrite and_then_bind.
    apply bind_ext; intros [] w5.
    rewrite IH. simpl List.length. now rewrite Nat.add_succ_r.
Qed.

Lemma NoDup_app_disjoint {A} (a b : list A) :
  NoDup (a ++ b) -> forall d, In d a -> ~ In d b.
Proof.
  induction a as [|x a IH]; intros Hnodup d Hd; [destruct Hd|].
  simpl in Hnodup. inversion Hnodup as [|? ? Hnotin Hrest]; subst.
  destruct Hd as [<-|Hd].
  - intros Hb. apply Hnotin, in_or_app. now right.
  - now apply IH.
Qed.

(** X14: with fewer entries than devices, every device listed once, those
    that have an entry lights, and no interrupt on its way,
    [reset_device_states] restores the devices that have an entry and
    then raises [IndexError]; the devices behind them are left as they
    are. *)
Theorem reset_device_states_short_entries restored dev rest saved w :
  sigint w = None -> all_lights w restored -> NoDup (restored ++ dev :: rest) ->
  List.length restored = List.length saved ->
  exists w',
    reset_device_states (restored ++ dev :: rest) saved w = (Raise IndexError, w') /\
    (forall d s, In (d, s) (List.combine restored saved) -> lamps w' d = lamp_of_saved s) /\
    (forall d, In d (dev :: rest) -> lamps w' d = lamps w d).
Proof.
  intros Hquiet Hlights Hnodup Hlen.
  assert (Hnodup1 : NoDup restored) by (apply (NoDup_app_remove_r _ _ Hnodup)).
  destruct (reset_from_reaches restored [] saved w Hquiet Hlights) as
    (w1 & Hrun & _ & Hout & Hin); [lia|exact Hnodup1|].
  exists w1. unfold reset_device_states. rewrite reset_from_app.
  simpl app in Hrun. simpl List.length in Hrun. rewrite Hrun.
  split; [|split].
  - simpl. unfold index, bind.
    now rewrite (proj2 (nth_error_None saved (List.length restored))) by lia.
  - exact Hin.
  - intros d Hd. apply Hout. intros Hr.
    now apply (NoDup_app_disjoint _ _ Hnodup d).
Qed.

Lemma reset_device_states_short_entries_witness :
  exists w',
    reset_device_states [1; 2] [(1, true, COLOR_NEUTRAL_LIGHT)]
      (sample_world (hours 12) (fun _ => Unreachable)) = (Raise IndexError, w') /\
    lamps w' 1 = lamp_of_saved (1, true, COLOR_NEUTRAL_LIGHT) /\
    lamps w' 2 = dark.
Proof.
  destruct (reset_device_states_short_entries [1] 2 [] [(1, true, COLOR_NEUTRAL_LIGHT)]
              (sample_world (hours 12) (fun _ => Unreachable)) eq_refl)
    as (w' & Hrun & Hin & Hout).
  - intros d _. reflexivity.
  - repeat constructor; simpl; intuition lia.
  - reflexivity.
  - exists w'. split; [exact Hrun|]. split.
    + apply Hin. now left.
    + apply (Hout 2). now left.
Defined.

(** ** Discovery and startup *)

Lemma already_in_group_In device group :
  already_in_group device group = true <-> In device group.
Proof.
  unfold already_in_group. rewrite existsb_exists. split.
  - intros (x & Hx & Heq). apply Z.eqb_eq in Heq. now subst.
  - intros H. exists device. split; [exact H|apply Z.eqb_refl].
Qed.

(** Adding a device that may be there already. *)
Lemma add_if_new dev group :
  NoDup group ->
  let group' := if already_in_group dev group then group else add_device dev group in
  NoDup group' /\ (forall d, In d group' <-> In d group \/ d = dev) /\
  exists extra, group' = group ++ extra.
Proof.
  intros Hnodup. simpl.
  destruct (already_in_group dev group) eqn:Hin.
  - apply already_in_group_In in Hin. split; [exact Hnodup|]. split.
    + intros d. split; [tauto|]. intros [H| ->]; assumption.
    + exists []. now rewrite app_nil_r.
  - assert (Hnot : ~ In dev group).
    { intros H. apply already_in_group_In in H. congruence. }
    unfold add_device. split; [|split].
    + apply NoDup_app; [exact Hnodup|repeat constructor; intros []|].
      intros a Ha [<-|[]]. contradiction.
    + intros d. rewrite in_app_iff. simpl.
      split; intros [H|H];
        [ left; exact H
        | destruct H as [<-|[]]; right; reflexivity
        | left; exact H
        | right; left; symmetry; exact H ].
    + now exists [dev].
Qed.

Lemma add_devices_spec devices :
  forall group,
    NoDup group ->
    NoDup (add_devices devices group) /\
    (forall d, In d (add_devices devices group) <-> In d group \/ In d devices) /\
    exists extra, add_devices devices group = group ++ extra.
Proof.
  induction devices as [|dev rest IH]; intros group Hnodup.
  - simpl. split; [exact Hnodup|]. split; [intros d; tauto|].
    exists []. now rewrite app_nil_r.
  - cbn [add_devices].
    destruct (add_if_new dev group Hnodup) as (Hn1 & Hin1 & extra1 & He1).
    simpl in Hn1, Hin1, He1.
    destruct (IH _ Hn1) as (Hn2 & Hin2 & extra2 & He2).
    split; [exact Hn2|]. split.
    + intros d. rewrite Hin2, Hin1. simpl. intuition (subst; auto).
    + exists (extra1 ++ extra2). now rewrite He2, He1, app_assoc.
Qed.

Lemma found_cases lan label :
  (get_devices_by_group lan label <> [] /\
   found lan label = get_devices_by_group lan label) \/
  (get_devices_by_group lan label = [] /\
   found lan label = match get_device_by_name lan label with
                     | Some dev => [dev]
                     | None => []
                     end).
Proof.
  unfold found. destruct (get_devices_by_group lan label); [right|left]; split;
    try reflexivity; discriminate.
Qed.

(** The loop over the labels, with no interrupt on its way. *)
Lemma collect_spec lan labels :
  forall group w,
    sigint w = None -> NoDup group ->
    exists group' w',
      collect lan labels group w = (Ok group', w') /\
      sigint w' = None /\ NoDup group' /\
      (forall d, In d group' <->
                 In d group \/ exists label, In label labels /\ In d (found lan label)) /\
      (exists extra, group' = group ++ extra) /\
      set_commands (trace w') = set_commands (trace w) /\
      lamps w' = lamps w /\ timeline w' = timeline w /\ clock w' = clock w.
Proof.
  induction labels as [|label rest IH]; intros group w Hquiet Hnodup.
  - exists group, w. split; [reflexivity|]. split; [exact Hquiet|].
    split; [exact Hnodup|]. split.
    + intros d. split; [tauto|]. intros [H|(l & [] & _)]. exact H.
    + split; [exists []; now rewrite app_nil_r|]. repeat split.
  - cbn [collect].
    destruct (found_cases lan label) as [[Hsome Hfound]|[Hnone Hfound]].
    + assert (Hlen : (0 <? List.length (get_devices_by_group lan label))%nat = true).
      { apply Nat.ltb_lt. destruct (get_devices_by_group lan label);
          [congruence|simpl; lia]. }
      rewrite Hlen.
      destruct (add_devices_spec (get_devices_by_group lan label) group Hnodup)
        as (Hn1 & Hin1 & extra1 & He1).
      destruct (IH _ w Hquiet Hn1)
        as (group' & w' & Hrun & Hq & Hn & Hin & (extra & He) & Hrest).
      exists group', w'. split; [exact Hrun|]. split; [exact Hq|].
      split; [exact Hn|]. split; [|split; [|exact Hrest]].
      * intros d. rewrite Hin, Hin1, <- Hfound. split.
        -- intros [[H|H]|(l & Hl & Hd)]; [now left| |].
           ++ right. exists label. split; [now left|exact H].
           ++ right. exists l. split; [now right|exact Hd].
        -- intros [H|(l & [<-|Hl] & Hd)]; [now left; left|now left; right|].
           right. now exists l.
      * exists (extra1 ++ extra). now rewrite He, He1, app_assoc.
    + rewrite Hnone. change (0 <? List.length (@nil mac))%nat with false. cbv iota.
      destruct (get_device_by_name lan label) as [dev|] eqn:Hname.
      * destruct (add_if_new dev group Hnodup) as (Hn1 & Hin1 & extra1 & He1).
        simpl in Hn1, Hin1, He1.
        destruct (IH _ w Hquiet Hn1)
          as (group' & w' & Hrun & Hq & Hn & Hin & (extra & He) & Hrest).
        exists group', w'. split; [exact Hrun|]. split; [exact Hq|].
        split; [exact Hn|]. split; [|split; [|exact Hrest]].
        -- intros d. rewrite Hin, Hin1. split.
           ++ intros [[H|H]|(l & Hl & Hd)]; [now left| |].
              ** right. exists label. split; [now left|]. rewrite Hfound. now left.
              ** right. exists l. split; [now right|exact Hd].
           ++ intros [H|(l & [<-|Hl] & Hd)]; [now left; left| |].
              ** rewrite Hfound in Hd. destruct Hd as [<-|[]]. left. now right.
              ** right. now exists l.
        -- exists (extra1 ++ extra). now rewrite He, He1, app_assoc.
      * destruct (IH group (log (Print (Text ("No devices found matching label '"
                                               ++ label ++ "'"))) w) Hquiet Hnodup)
          as (group' & w' & Hrun & Hq & Hn & Hin & Hext & Htr & Hl & Htl & Hc).
        exists group', w'. split.
        { unfold bind at 1, print. now rewrite (perform_quiet _ w Hquiet). }
        split; [exact Hq|].
        split; [exact Hn|]. split; [|split; [exact Hext|]].
        -- intros d. rewrite Hin. split.
           ++ intros [H|(l & Hl' & Hd)]; [now left|].
              right. exists l. split; [now right|exact Hd].
           ++ intros [H|(l & [<-|Hl'] & Hd)]; [now left| |].
              ** rewrite Hfound in Hd. destruct Hd.
              ** right. now exists l.
        -- simpl in Htr, Hl, Htl, Hc. rewrite Htr, set_commands_app. simpl.
           rewrite app_nil_r. repeat split; assumption.
Qed.

(** X15: the control group that the labels of the command line give holds
    each device once, however many labels stand for it, and holds exactly
    the devices that some label stands for: the devices of the group of
    that name, or when no group has that name the device of that name.  No
    command is sent while it is built. *)
Theorem control_group_has_each_device_once lan labels w :
  sigint w = None ->
  exists group w',
    collect lan labels [] w = (Ok group, w') /\
    NoDup group /\
    (forall d, In d group <->
               exists label, In label labels /\ In d (found lan label)) /\
    set_commands (trace w') = set_commands (trace w) /\
    lamps w' = lamps w.
Proof.
  intros Hquiet.
  destruct (collect_spec lan labels [] w Hquiet (NoDup_nil _))
    as (group & w' & Hrun & _ & Hnodup & Hin & _ & Htrace & Hlamps & _).
  exists group, w'. split; [exact Hrun|]. split; [exact Hnodup|].
  split; [|split; assumption].
  intros d. rewrite Hin. split; [intros [[]|H]; exact H|now right].
Qed.

Lemma control_group_has_each_device_once_witness :
  exists w',
    collect sample_lan ["living"; "desk"; "nobody"; "plug"]%string []
      (sample_world (hours 12) (fun _ => Unreachable)) = (Ok [1; 2; 9], w') /\
    NoDup [1; 2; 9].
Proof.
  destruct (control_group_has_each_device_once sample_lan
              ["living"; "desk"; "nobody"; "plug"]%string
              (sample_world (hours 12) (fun _ => Unreachable)) eq_refl)
    as (group & w' & Hrun & Hnodup & _).
  exists w'. vm_compute in Hrun. inversion Hrun; subst. split; [reflexivity|exact Hnodup].
Defined.

Lemma no_light_iff (f : mac -> bool) l :
  (List.length (filter f l) =? 0)%nat = negb (existsb f l).
Proof.
  induction l as [|x l IH]; [reflexivity|].
  simpl. destruct (f x); [reflexivity|exact IH].
Qed.

(** The head of [main] when there is a label, with no interrupt on its
    way: the control group is built and its size printed; the head ends
    in [exit(1)] when the group is empty or holds no light, and goes on
    with the whole group as soon as one device is a light. *)
Lemma startup_spec lan argv w :
  sigint w = None -> (2 <= List.length argv)%nat ->
  exists group w1,
    collect lan (tl argv) [] (log (Print (Text "Discovering lights...")) w)
    = (Ok group, w1) /\
    sigint w1 = None /\ NoDup group /\
    (forall d, In d group <->
               exists label, In label (tl argv) /\ In d (found lan label)) /\
    set_commands (trace w1) = set_commands (trace w) /\
    lamps w1 = lamps w /\ timeline w1 = timeline w /\ clock w1 = clock w /\
    startup lan argv w
    = let w2 := log (Print (Text ("Found " ++ str_of_nat (List.length group)
                                    ++ " device(s)"))) w1 in
      if existsb (fun d => is_light (lamps w d)) group then (Ok (Ready group), w2)
      else if (List.length group =? 0)%nat then (Ok (Exit 1), w2)
      else (Ok (Exit 1), log (Print (Text "None of the devices found are lights")) w2).
Proof.
  intros Hquiet Hlen. unfold startup.
  replace (List.length argv <? 2)%nat with false by (symmetry; apply Nat.ltb_ge; lia).
  destruct (collect_spec lan (tl argv) [] (log (Print (Text "Discovering lights...")) w)
              Hquiet (NoDup_nil _))
    as (group & w1 & Hrun & Hq1 & Hnodup & Hin & _ & Htrace & Hlamps & Htl & Hclock).
  exists group, w1. split; [exact Hrun|]. split; [exact Hq1|]. split; [exact Hnodup|].
  split; [intros d; rewrite Hin; split; [intros [[]|H]; exact H|now right]|].
  split; [rewrite Htrace; simpl; rewrite set_commands_app; simpl; now rewrite app_nil_r|].
  split; [exact Hlamps|]. split; [exact Htl|]. split; [exact Hclock|].
  unfold bind at 1, print at 1. rewrite (perform_quiet _ w Hquiet).
  unfold bind at 1. rewrite Hrun.
  unfold bind at 1, print at 1. rewrite (perform_quiet _ w1 Hq1).
  cbv zeta. simpl lamps in Hlamps.
  destruct group as [|d g].
  - reflexivity.
  - change (List.length (d :: g) =? 0)%nat with false. cbv iota.
    unfold bind at 1, gets. cbn [lamps log]. rewrite Hlamps.
    rewrite no_light_iff.
    destruct (existsb (fun dev => is_light (lamps w dev)) (d :: g)); cbv iota.
    + reflexivity.
    + unfold negb, bind, print. rewrite (perform_quiet _ (log _ w1) Hq1). reflexivity.
Qed.

(** [main] from the call of [save_current_states] on, on lights: the
    states are saved, "Running..." is printed and the loop is entered. *)
Lemma main_on_lights fuel devices w :
  sigint w = None -> all_lights w devices ->
  exists w',
    main fuel devices w
    = main_loop fuel devices devices
        (map (fun d => (d, lamp_power (lamps w d), lamp_color (lamps w d))) devices) w' /\
    sigint w' = None /\ lamps w' = lamps w /\ clock w' = clock w /\
    timeline w' = [] /\
    trace w' = trace w ++ flat_map (fun d => [GetPower d; GetColor d]) devices
                 ++ [Print (Text "Running...")].
Proof.
  intros Hquiet Hlights.
  destruct (save_current_states_spec devices w Hquiet Hlights)
    as (w1 & Hrun & Hq1 & Hl1 & Hc1 & _ & _ & _ & Htr1).
  exists (log (Print (Text "Running...")) (set_timeline [] w1)).
  split.
  - unfold main. unfold bind at 1. rewrite Hrun.
    unfold bind at 1, modify. unfold bind at 1, print.
    now rewrite (perform_quiet _ (set_timeline [] w1) Hq1).
  - simpl. rewrite Htr1, <- app_assoc. repeat split; assumption.
Qed.

(** [main] from the call of [save_current_states] on, when [dev] is the
    first device that is not a light: nothing is saved and the loop is
    not reached. *)
Lemma main_on_mixed fuel lights dev rest w :
  sigint w = None -> all_lights w lights -> is_light (lamps w dev) = false ->
  exists w',
    main fuel (lights ++ dev :: rest) w = (Raise AttributeError, w') /\
    lamps w' = lamps w /\
    trace w' = trace w ++ flat_map (fun d => [GetPower d; GetColor d]) lights
                 ++ [GetPower dev].
Proof.
  intros Hquiet Hlights Hdev.
  destruct (save_current_states_stops lights dev rest w Hquiet Hlights Hdev)
    as (w1 & Hrun & _ & Hl1 & _ & _ & Htr1).
  exists w1. split; [|split; assumption].
  unfold main. unfold bind at 1. now rewrite Hrun.
Qed.

(** X16: how [main] gets to its loop, with no interrupt on its way.  With
    no label on the command line it prints the usage and exits with 1,
    without looking for a device.  Otherwise it builds the control group,
    each device once, and prints its size.  When the group is empty or
    holds no light it exits with 1, no device asked and no command sent.
    When every device of the group is a light it saves their states,
    prints "Running..." and enters the loop with the whole group and an
    entry for each device.  When the group holds a light and a device
    that is not one, the check for lights lets it pass, and
    [save_current_states] then raises [AttributeError] on the first
    device that is not a light: "Running..." is not printed, the loop is
    not entered and no command is sent. *)
Theorem script_outcome lan argv fuel w :
  sigint w = None ->
  ((List.length argv < 2)%nat ->
   exists w',
     script lan argv fuel w = (Ok (Exit_code 1), w') /\
     trace w' = trace w ++
       [Print (Text usage_head); Print (Text usage_line)]) /\
  ((2 <= List.length argv)%nat ->
   exists group w1,
     collect lan (tl argv) [] (log (Print (Text "Discovering lights...")) w)
     = (Ok group, w1) /\
     NoDup group /\
     (forall d, In d group <->
                exists label, In label (tl argv) /\ In d (found lan label)) /\
     let found_line :=
       Print (Text ("Found " ++ str_of_nat (List.length group) ++ " device(s)")) in
     (existsb (fun d => is_light (lamps w d)) group = false ->
      exists w',
        script lan argv fuel w = (Ok (Exit_code 1), w') /\
        trace w' = trace w1 ++ found_line ::
          (if (List.length group =? 0)%nat then []
           else [Print (Text "None of the devices found are lights")]) /\
        set_commands (trace w') = set_commands (trace w)) /\
     (group <> [] -> all_lights w group ->
      exists w',
        script lan argv fuel w
        = (r <- main_loop fuel group group
                  (map (fun d => (d, lamp_power (lamps w d), lamp_color (lamps w d)))
                     group) ;;
           ret (Loop r)) w' /\
        trace w' = trace w1 ++ found_line ::
          flat_map (fun d => [GetPower d; GetColor d]) group
          ++ [Print (Text "Running...")] /\
        set_commands (trace w') = set_commands (trace w) /\
        sigint w' = None /\ lamps w' = lamps w /\ timeline w' = [] /\
        clock w' = clock w) /\
     (forall lights dev rest,
         group = lights ++ dev :: rest -> all_lights w lights ->
         is_light (lamps w dev) = false ->
         existsb (fun d => is_light (lamps w d)) group = true ->
         exists w',
           script lan argv fuel w = (Raise AttributeError, w') /\
           trace w' = trace w1 ++ found_line ::
             flat_map (fun d => [GetPower d; GetColor d]) lights ++ [GetPower dev] /\
           set_commands (trace w') = set_commands (trace w) /\
           lamps w' = lamps w)).
Proof.
  intros Hquiet. split; intros Hlen.
  - unfold script, startup.
    replace (List.length argv <? 2)%nat with true by (symmetry; apply Nat.ltb_lt; lia).
    eexists. split.
    + unfold bind at 1. unfold bind at 1, print. rewrite (perform_quiet _ w Hquiet).
      unfold bind at 1. rewrite (perform_quiet _ (log _ w) Hquiet). reflexivity.
    + simpl. now rewrite <- app_assoc.
  - destruct (startup_spec lan argv w Hquiet Hlen)
      as (group & w1 & Hrun & Hq1 & Hnodup & Hin & Htrace & Hlamps & Htl & Hclock & Hstart).
    exists group, w1. split; [exact Hrun|]. split; [exact Hnodup|]. split; [exact Hin|].
    cbv zeta in Hstart |- *.
    set (found_line :=
           Print (Text ("Found " ++ str_of_nat (List.length group) ++ " device(s)"))) in *.
    split; [|split].
    + intros Hnone. rewrite Hnone in Hstart.
      unfold script, bind. rewrite Hstart.
      destruct (List.length group =? 0)%nat; eexists; (split; [reflexivity|]); simpl;
        rewrite <- ?app_assoc; (split; [reflexivity|]);
        rewrite !set_commands_app; simpl; now rewrite ?app_nil_r.
    + intros Hsome Hlights.
      assert (Hex : existsb (fun d => is_light (lamps w d)) group = true).
      { destruct group as [|d g]; [congruence|].
        simpl. rewrite (Hlights d (or_introl eq_refl)). reflexivity. }
      rewrite Hex in Hstart.
      destruct (main_on_lights fuel group (log found_line w1) Hq1)
        as (w' & Hmain & Hq' & Hl' & Hc' & Htl' & Htr').
      { intros d Hd. cbn [lamps log]. rewrite Hlamps. now apply Hlights. }
      exists w'. cbn [lamps log clock trace] in Hmain, Hl', Hc', Htr'.
      rewrite Hlamps in Hmain.
      split; [unfold script; unfold bind at 1; rewrite Hstart; unfold bind at 1;
              rewrite Hmain; reflexivity|].
      split; [rewrite Htr', <- app_assoc; reflexivity|].
      split.
      { rewrite Htr', !set_commands_app, set_commands_queries, Htrace. simpl.
        now rewrite !app_nil_r. }
      repeat split; try assumption; congruence.
    + intros lights dev rest Hgroup Hlights Hdev Hex.
      rewrite Hex in Hstart.
      destruct (main_on_mixed fuel lights dev rest (log found_line w1) Hq1)
        as (w' & Hmain & Hl' & Htr').
      { intros d Hd. cbn [lamps log]. rewrite Hlamps. now apply Hlights. }
      { cbn [lamps log]. now rewrite Hlamps. }
      exists w'. cbn [lamps log trace] in Hl', Htr'.
      split; [unfold script; unfold bind at 1; rewrite Hstart, Hgroup; unfold bind at 1;
              rewrite Hmain; reflexivity|].
      split; [rewrite Htr', <- app_assoc; reflexivity|].
      split; [|congruence].
      rewrite Htr', !set_commands_app, set_commands_queries, Htrace. simpl.
      now rewrite !app_nil_r.
Qed.

Lemma script_outcome_witness :
  exists w',
    script sample_lan ["evening-lights.py"; "living"; "plug"]%string 3
      (with_plug (sample_world (hours 12) (fun _ => Unreachable)))
    = (Raise AttributeError, w') /\
    trace w' = [Print (Text "Discovering lights..."); Print (Text "Found 3 device(s)");
                GetPower 1; GetColor 1; GetPower 2; GetColor 2; GetPower 9] /\
    set_commands (trace w') = [].
Proof.
  destruct (proj2 (script_outcome sample_lan
                     ["evening-lights.py"; "living"; "plug"]%string 3
                     (with_plug (sample_world (hours 12) (fun _ => Unreachable)))
                     eq_refl))
    as (group & w1 & Hrun & _ & _ & _ & _ & Hmixed).
  - simpl. lia.
  - vm_compute in Hrun. inversion Hrun; subst group w1; clear Hrun.
    destruct (Hmixed [1; 2] 9 []) as (w' & Hscript & Htrace & Hset & _).
    + reflexivity.
    + intros d [<-|[<-|[]]]; reflexivity.
    + reflexivity.
    + reflexivity.
    + exists w'. split; [exact Hscript|]. split; [exact Htrace|exact Hset].
Defined.

(** ** The loop without an interrupt *)

Create HintDb quiet.

Lemma unint_ret {A} (a : A) : uninterrupted (ret a).
Proof. intros w H. repeat split; [exact H|discriminate]. Qed.

Lemma unint_raise {A} e : e <> KeyboardInterrupt -> uninterrupted (@raise A e).
Proof. intros He w H. repeat split; [exact H|]. simpl. congruence. Qed.

Lemma unint_gets {A} (f : world -> A) : uninterrupted (gets f).
Proof. intros w H. repeat split; [exact H|discriminate]. Qed.

Lemma unint_modify f :
  (forall w, sigint (f w) = sigint w /\ trace (f w) = trace w) ->
  uninterrupted (modify f).
Proof.
  intros Hf w H. destruct (Hf w) as [Hs Ht]. simpl.
  rewrite Hs, Ht. repeat split; [exact H|discriminate].
Qed.

Lemma unint_bind {A B} (m : M A) (k : A -> M B) :
  uninterrupted m -> (forall a, uninterrupted (k a)) -> uninterrupted (bind m k).
Proof.
  intros Hm Hk w H. unfold bind. destruct (Hm w H) as (Hs & He & Ht).
  destruct (m w) as [[a|e] w1]; simpl in *.
  - destruct (Hk a w1 Hs) as (Hs' & He' & Ht'). rewrite Ht', Ht. repeat split; assumption.
  - split; [exact Hs|]. split; [|exact Ht].
    intros Hc. apply He. inversion Hc. reflexivity.
Qed.

Lemma unint_checkpoint : uninterrupted checkpoint.
Proof.
  intros w H. rewrite (checkpoint_quiet w H). repeat split; [exact H|discriminate].
Qed.

Lemma unint_perform e : is_restore_command e = false -> uninterrupted (perform e).
Proof.
  intros He w H. rewrite (perform_quiet e w H). simpl.
  unfold restore_commands_of. rewrite filter_app. simpl. rewrite He, app_nil_r.
  repeat split; [exact H|discriminate].
Qed.

Lemma unint_sleep d : uninterrupted (sleep d).
Proof.
  unfold sleep. destruct (d <? 0); [apply unint_raise; discriminate|].
  apply unint_bind; [now apply unint_perform|]. intros _.
  apply unint_modify. intros w. split; reflexivity.
Qed.

Lemma unint_try_except {A} (body : M A) handlers :
  uninterrupted body ->
  (forall e h, handlers e = Some h -> e <> KeyboardInterrupt -> uninterrupted h) ->
  uninterrupted (try_except body handlers).
Proof.
  intros Hbody Hh w H. unfold try_except. destruct (Hbody w H) as (Hs & He & Ht).
  destruct (body w) as [[a|e] w1]; simpl in *; [repeat split; assumption|].
  assert (Hne : e <> KeyboardInterrupt) by congruence.
  destruct (handlers e) as [h|] eqn:Hhe; [|repeat split; assumption].
  destruct (Hh e h Hhe Hne w1 Hs) as (Hs' & He' & Ht').
  rewrite Ht', Ht. repeat split; assumption.
Qed.

#[local] Hint Resolve unint_ret unint_gets unint_checkpoint unint_sleep : quiet.

(** Applies the lemmas above along the binds of the goal. *)
Ltac unint :=
  repeat first
    [ apply unint_ret | apply unint_gets | apply unint_checkpoint | apply unint_sleep
    | apply unint_raise; discriminate
    | apply unint_perform; reflexivity
    | apply unint_modify; intros ?; split; reflexivity
    | apply unint_bind; [|intros ?] ].

Lemma unint_sleep_until t timeout : uninterrupted (sleep_until t timeout).
Proof.
  unfold sleep_until, utc_now. apply unint_bind; [unint|]. intros now.
  apply unint_bind.
  - destruct timeout as [d|]; [|unint].
    destruct (truthy (Some d) && (d <? t - now)); unint.
  - intros _. destruct (0 <? t - now); unint.
Qed.

Lemma unint_pop timeout : uninterrupted (Timeline.pop timeout).
Proof.
  unfold Timeline.pop, Timeline.first, Timeline.pop0.
  apply unint_bind.
  - apply unint_bind; [unint|]. intros tl. destruct tl; unint.
  - intros head. apply unint_bind; [apply unint_sleep_until|]. intros _.
    apply unint_bind; [unint|]. intros tl. destruct tl; unint.
Qed.

Lemma unint_apply self lights duration :
  uninterrupted (LampStateOps.apply self lights duration).
Proof.
  unfold LampStateOps.apply, group_set_power, group_set_color.
  destruct (LampState.power self); unint.
Qed.

Lemma unint_trigger self lights fade_arg :
  uninterrupted (TimeEventOps.trigger self lights fade_arg).
Proof.
  unfold TimeEventOps.trigger, TimeEventOps.print, print.
  apply unint_bind; [unint|]. intros _. apply unint_apply.
Qed.

Lemma unint_request lat lng date : uninterrupted (request_sunrise_sunset lat lng date).
Proof.
  unfold request_sunrise_sunset.
  apply unint_bind; [unint|]. intros _.
  apply unint_bind; [unint|]. intros answer.
  destruct answer as [| | |[| |t1] [| |t2]]; unfold parse_field; unint.
Qed.

Lemma unint_utc_datetime d t : uninterrupted (utc_datetime d t).
Proof. unfold utc_datetime, datetime_combine. destruct d; unint. Qed.

Lemma unint_get_sunset_or_default lat lng date :
  uninterrupted (get_sunset_or_default lat lng date).
Proof.
  unfold get_sunset_or_default. apply unint_try_except.
  - apply unint_bind; [apply unint_request|]. intros p. unint.
  - intros e h. destruct (is_Exception e); [|discriminate].
    intros H _; inversion H; subst; clear H. unfold print.
    do 3 (apply unint_bind; [unint|]; intros ?).
    apply unint_utc_datetime.
Qed.

Lemma unint_next_sunset lat lng : uninterrupted (next_sunset lat lng).
Proof.
  unfold next_sunset, utc_now.
  apply unint_bind; [unint|]. intros now.
  apply unint_bind; [apply unint_get_sunset_or_default|]. intros sunset.
  destruct (now <? sunset); [unint|apply unint_get_sunset_or_default].
Qed.

Lemma unint_print_all evs : uninterrupted (Timeline.print_all evs).
Proof.
  induction evs as [|ev rest IH]; [unint|].
  cbn [Timeline.print_all]. unfold TimeEventOps.print, print.
  apply unint_bind; [unint|]. intros _. exact IH.
Qed.

Lemma unint_fill_timeline : uninterrupted fill_timeline.
Proof.
  unfold fill_timeline, Timeline.insert, Timeline.print, print.
  apply unint_bind; [apply unint_next_sunset|]. intros sunset.
  apply unint_bind; [unint|]. intros z.
  apply unint_bind; [unint|]. intros _.
  apply unint_bind; [apply unint_utc_datetime|]. intros nighttime.
  apply unint_bind; [unint|]. intros _.
  apply unint_bind; [unint|]. intros _.
  apply unint_bind; [unint|]. intros _.
  apply unint_bind; [|intros _; unint].
  apply unint_bind; [unint|]. intros tl. apply unint_print_all.
Qed.

(** A turn of the loop with no interrupt on its way does not end by
    [break]. *)
Lemma turn_quiet group devices saved w :
  sigint w = None ->
  sigint (snd (turn group devices saved w)) = None /\
  fst (turn group devices saved w) <> Raise KeyboardInterrupt /\
  restore_commands_of (trace (snd (turn group devices saved w)))
  = restore_commands_of (trace w) /\
  fst (turn group devices saved w) <> Ok Break.
Proof.
  intros Hquiet. unfold turn, try_except.
  set (body := (ev <- Timeline.pop None ;;
                TimeEventOps.trigger ev group None ;; ret Continue)).
  assert (Hbody : uninterrupted body).
  { apply unint_bind; [apply unint_pop|]. intros ev.
    apply unint_bind; [apply unint_trigger|]. intros _. unint. }
  assert (Hvalue : forall s w1, body w = (Ok s, w1) -> s = Continue).
  { intros s w1. unfold body, bind.
    destruct (Timeline.pop None w) as [[ev|e] w2]; [|discriminate].
    destruct (TimeEventOps.trigger ev group None w2) as [[[]|e] w3]; [|discriminate].
    unfold ret. intros H. now inversion H. }
  destruct (Hbody w Hquiet) as (Hs & He & Ht).
  destruct (body w) as [[s|e] w1] eqn:Hrun; simpl in Hs, He, Ht.
  - rewrite (Hvalue s w1 eq_refl). simpl. repeat split; try assumption; discriminate.
  - destruct e; try (simpl; repeat split; try assumption; discriminate).
    + assert (Hfill : uninterrupted (fill_timeline ;; ret Continue)).
      { apply unint_bind; [apply unint_fill_timeline|]. intros _. unint. }
      destruct (Hfill w1 Hs) as (Hs' & He' & Ht').
      rewrite Ht in Ht'. split; [exact Hs'|]. split; [exact He'|]. split; [exact Ht'|].
      unfold bind, ret. destruct (fill_timeline w1) as [[[]|e] w2]; discriminate.
    + congruence.
Qed.

(** X17: with no interrupt on its way the loop of [main] never ends by
    [break] and never raises [KeyboardInterrupt], however many turns it is
    run for, and the restore routine is not called: no [set_power] or
    [set_color] is sent to a single device.  It runs on, or ends with an
    exception that no clause of the [try] catches. *)
Theorem main_loop_needs_interrupt fuel group devices saved w :
  sigint w = None ->
  fst (main_loop fuel group devices saved w) <> Ok Exited /\
  fst (main_loop fuel group devices saved w) <> Raise KeyboardInterrupt /\
  restore_commands_of (trace (snd (main_loop fuel group devices saved w)))
  = restore_commands_of (trace w).
Proof.
  revert w. induction fuel as [|fuel IH]; intros w Hquiet.
  - simpl. repeat split; discriminate.
  - cbn [main_loop]. unfold bind.
    destruct (turn_quiet group devices saved w Hquiet) as (Hs & He & Ht & Hb).
    destruct (turn group devices saved w) as [[[]|e] w1]; simpl in Hs, He, Ht, Hb.
    + destruct (IH w1 Hs) as (H1 & H2 & H3). rewrite H3, Ht. repeat split; assumption.
    + congruence.
    + simpl. split; [discriminate|]. split; [|exact Ht].
      intros Hc. apply He. inversion Hc. reflexivity.
Qed.

Lemma main_loop_needs_interrupt_witness :
  fst (main_loop 4 [1; 2] [1; 2] [(1, true, COLOR_NEUTRAL_LIGHT); (2, false, (0, 0, 0, 0))]
         (sample_world (hours 12) (always (hours 10) (hours 24))))
  <> Ok Exited.
Proof.
  apply (main_loop_needs_interrupt 4 [1; 2] [1; 2]
           [(1, true, COLOR_NEUTRAL_LIGHT); (2, false, (0, 0, 0, 0))]
           (sample_world (hours 12) (always (hours 10) (hours 24))) eq_refl).
Defined.

(** ** The loop and the service *)

Lemma pop_on_empty timeout w :
  timeline w = [] -> Timeline.pop timeout w = (Raise IndexError, w).
Proof.
  intros Hempty. unfold Timeline.pop, Timeline.first, bind, gets. now rewrite Hempty.
Qed.

Lemma fallback_type_error lat lng date w :
  sigint w = None ->
  usable (service w (request_for lat lng date)) = false ->
  exists e,
    get_sunset_or_default lat lng date w
    = (Raise TypeError,
       log (Print (Exn e))
         (log (Print (Text "warning: exception raised while requesting sunrise-sunset"))
            (log (HttpGet (request_for lat lng date)) w))).
Proof.
  intros Hquiet Hbad.
  destruct (request_fails lat lng date w Hquiet Hbad) as (e & Hfail & He).
  exists e. unfold get_sunset_or_default, try_except.
  unfold bind at 1. rewrite Hfail, He. cbv beta iota.
  unfold bind at 1, print. rewrite (perform_quiet _ (log _ w) Hquiet).
  unfold bind at 1. rewrite (perform_quiet _ (log _ (log _ w)) Hquiet).
  reflexivity.
Qed.

(** X18: a refill that cannot get the sunset ends the loop.  With the
    timeline empty, no interrupt on its way and a reply of the service for
    the day of now that lacks a timestamp (or no reply), the loop of
    [main] ends with [TypeError] raised out of it, after one request and
    two warnings; nothing is queued, no command is sent and the lamps are
    not restored. *)
Theorem refill_without_sunset_ends_loop fuel group devices saved w :
  sigint w = None -> timeline w = [] ->
  usable (service w (request_for LATITUDE LONGITUDE (clock w))) = false ->
  exists w' e,
    main_loop (S fuel) group devices saved w = (Raise TypeError, w') /\
    trace w' = trace w ++
      [HttpGet (request_for LATITUDE LONGITUDE (clock w));
       Print (Text "warning: exception raised while requesting sunrise-sunset");
       Print (Exn e)] /\
    lamps w' = lamps w /\ timeline w' = [].
Proof.
  intros Hquiet Htl Hbad.
  destruct (fallback_type_error LATITUDE LONGITUDE (clock w) w Hquiet Hbad) as (e & Hfall).
  set (w' := log (Print (Exn e))
               (log (Print (Text "warning: exception raised while requesting sunrise-sunset"))
                  (log (HttpGet (request_for LATITUDE LONGITUDE (clock w))) w))) in *.
  assert (Hnext : next_sunset LATITUDE LONGITUDE w = (Raise TypeError, w')).
  { unfold next_sunset, bind. now rewrite (utc_now_quiet w Hquiet), Hfall. }
  assert (Hfill : fill_timeline w = (Raise TypeError, w')).
  { unfold fill_timeline. unfold bind at 1. now rewrite Hnext. }
  assert (Hturn : turn group devices saved w = (Raise TypeError, w')).
  { unfold turn, try_except. unfold bind at 1.
    rewrite (pop_on_empty None w Htl). cbv beta iota.
    unfold bind. now rewrite Hfill. }
  exists w', e. split.
  - cbn [main_loop]. unfold bind. now rewrite Hturn.
  - simpl. rewrite <- !app_assoc. repeat split. exact Htl.
Qed.

Lemma refill_without_sunset_ends_loop_witness :
  exists w' e,
    main_loop 1 [1; 2] [1; 2] [(1, true, COLOR_NEUTRAL_LIGHT); (2, false, (0, 0, 0, 0))]
      (sample_world (hours 12) (fun _ => Results Unparsable (Stamp (hours 24))))
    = (Raise TypeError, w') /\
    trace w' =
      [HttpGet (request_for LATITUDE LONGITUDE (hours 12));
       Print (Text "warning: exception raised while requesting sunrise-sunset");
       Print (Exn e)].
Proof.
  destruct (refill_without_sunset_ends_loop 0 [1; 2] [1; 2]
              [(1, true, COLOR_NEUTRAL_LIGHT); (2, false, (0, 0, 0, 0))]
              (sample_world (hours 12) (fun _ => Results Unparsable (Stamp (hours 24))))
              eq_refl eq_refl eq_refl) as (w' & e & Hrun & Htrace & _).
  exists w', e. split; [exact Hrun|exact Htrace].
Defined.

(** X19: a turn of the loop with an event queued and no interrupt on its
    way: it waits until the head of the timeline is due, takes it off the
    timeline, prints it and sends the two commands of its state with the
    fade of the event, and the loop goes on. *)
Theorem turn_triggers_head group devices saved w ev rest :
  sigint w = None -> timeline w = ev :: rest ->
  exists w',
    turn group devices saved w = (Ok Continue, w') /\
    timeline w' = rest /\
    clock w' = Z.max (clock w) (TimeEvent.time ev) + settle /\
    trace w' = trace w
      ++ (if clock w <? TimeEvent.time ev
          then [Sleep (TimeEvent.time ev - clock w)] else [])
      ++ event_line (tz w) ev ::
         (if LampState.power (TimeEvent.state ev)
          then [GroupSetPower group true (duration_ms (TimeEvent.fade ev));
                Sleep settle;
                GroupSetColor group (LampState.color (TimeEvent.state ev))
                  (duration_ms (TimeEvent.fade ev))]
          else [GroupSetColor group (LampState.color (TimeEvent.state ev))
                  (duration_ms (TimeEvent.fade ev));
                Sleep settle;
                GroupSetPower group false (duration_ms (TimeEvent.fade ev))]).
Proof.
  destruct w as [clk z sg svc lmp tl tr]. simpl. intros -> ->.
  unfold turn, try_except, Timeline.pop, Timeline.first, Timeline.pop0, sleep_until,
    utc_now, TimeEventOps.trigger, TimeEventOps.print, LampStateOps.apply, print,
    bind, gets, checkpoint, ret. simpl.
  destruct (Z.ltb_spec clk (TimeEvent.time ev)) as [Hfuture|Hpast].
  - unfold sleep. decide_ltb. simpl.
    destruct (LampState.power (TimeEvent.state ev)); simpl;
      (eexists; split; [reflexivity|]); simpl;
      (split; [reflexivity|]); (split; [lia|]);
      rewrite <- !app_assoc; reflexivity.
  - decide_ltb. simpl.
    destruct (LampState.power (TimeEvent.state ev)); simpl;
      (eexists; split; [reflexivity|]); simpl;
      (split; [reflexivity|]); (split; [lia|]);
      rewrite <- !app_assoc; reflexivity.
Qed.

Lemma turn_triggers_head_witness :
  exists w',
    turn [1; 2] [1; 2] []
      (set_timeline [sample_event "late" (hours 21)]
         (sample_world (hours 12) (fun _ => Unreachable))) = (Ok Continue, w') /\
    timeline w' = [] /\
    clock w' = hours 21 + settle.
Proof.
  destruct (turn_triggers_head [1; 2] [1; 2] []
              (set_timeline [sample_event "late" (hours 21)]
                 (sample_world (hours 12) (fun _ => Unreachable)))
              (sample_event "late" (hours 21)) [] eq_refl eq_refl)
    as (w' & Hrun & Htl & Hclock & _).
  exists w'. split; [exact Hrun|]. split; [exact Htl|exact Hclock].
Defined.

(** The inserts and the printing of [fill_timeline] once more, with what
    they print and what they leave alone. *)
Lemma schedule_quiet_trace sunset w :
  sigint w = None ->
  exists w',
    (z <- gets tz ;;
     let local_date := DateObject (local_date z sunset) in
     let evening := sunset + SUNSET_OFFSET in
     Timeline.insert (event "Evening" evening state_evening TRANSITION_DURATION) ;;
     nighttime <- utc_datetime local_date (_time 21 0 0) ;;
     Timeline.insert (event "Nightime" nighttime state_night TRANSITION_DURATION) ;;
     let lightsoff := nighttime + hours 3 in
     Timeline.insert (event "Lights Off" lightsoff state_off TRANSITION_DURATION) ;;
     print (Text "Queued events:") ;;
     Timeline.print ;;
     print (Text "--")) w = (Ok tt, w') /\
    timeline w'
    = sort (sort (sort (timeline w ++ [evening_event sunset])
                  ++ [nighttime_event (tz w) sunset])
            ++ [lightsoff_event (tz w) sunset]) /\
    trace w' = trace w ++ Print (Text "Queued events:")
                 :: map (event_line (tz w)) (timeline w') ++ [Print (Text "--")] /\
    clock w' = clock w /\ lamps w' = lamps w /\ sigint w' = None.
Proof.
  destruct w as [clk z sg svc lmp tl tr]. simpl. intros ->.
  set (queued := sort (sort (sort (tl ++ [evening_event sunset])
                             ++ [nighttime_event z sunset])
                       ++ [lightsoff_event z sunset])).
  set (w3 := {| clock := clk; tz := z; sigint := None; service := svc; lamps := lmp;
                timeline := queued; trace := tr |}).
  destruct (print_all_lines queued (log (Print (Text "Queued events:")) w3) eq_refl)
    as (w4 & Hprint & Htrace4 & Hquiet4 & Htl4 & _ & Hclock4 & Hlamps4).
  exists (log (Print (Text "--")) w4). split.
  - unfold bind at 1, gets. cbn [tz].
    unfold bind at 1, Timeline.insert, bind at 1, modify. cbn [timeline set_timeline].
    unfold bind at 1, utc_datetime, datetime_combine, bind at 1 2, ret, gets. cbn [tz].
    unfold bind at 1, bind at 1, modify. cbn [timeline set_timeline].
    unfold bind at 1, bind at 1, modify. cbn [timeline set_timeline].
    cbn [clock tz sigint service lamps trace].
    fold (evening_event sunset) (nighttime_event z sunset).
    change (event "Lights Off" _ state_off TRANSITION_DURATION)
      with (lightsoff_event z sunset).
    fold queued. fold w3.
    unfold bind at 1, print. rewrite (perform_quiet _ w3 eq_refl).
    unfold bind at 1, Timeline.print, bind at 1, gets.
    change (timeline (log (Print (Text "Queued events:")) w3)) with queued.
    rewrite Hprint. apply perform_quiet, Hquiet4.
  - simpl in *. rewrite Htrace4, Htl4, Hclock4, Hlamps4, <- !app_assoc. simpl.
    repeat split. exact Hquiet4.
Qed.

(** X20: a turn of the loop on an empty timeline, with no interrupt on its
    way and a reply of the service whose sunset is still to come: one
    request is sent, the three events of the day are queued in the order
    of their times and printed between two lines of text, and the loop
    goes on.  The refill does not sleep and sends nothing to the lamps. *)
Theorem turn_refills_empty_timeline group devices saved w sunrise sunset :
  sigint w = None -> timeline w = [] ->
  service w (request_for LATITUDE LONGITUDE (clock w))
  = Results (Stamp sunrise) (Stamp sunset) ->
  clock w < sunset ->
  exists w',
    turn group devices saved w = (Ok Continue, w') /\
    Permutation (timeline w')
      [evening_event sunset; nighttime_event (tz w) sunset;
       lightsoff_event (tz w) sunset] /\
    ascending (timeline w') /\
    trace w' = trace w
      ++ HttpGet (request_for LATITUDE LONGITUDE (clock w))
      :: Print (Text "Queued events:")
      :: map (event_line (tz w)) (timeline w') ++ [Print (Text "--")] /\
    clock w' = clock w /\ lamps w' = lamps w.
Proof.
  intros Hquiet Htl Hreply Hfuture.
  set (w1 := log (HttpGet (request_for LATITUDE LONGITUDE (clock w))) w).
  assert (Hnext : next_sunset LATITUDE LONGITUDE w = (Ok sunset, w1)).
  { unfold next_sunset, bind. rewrite (utc_now_quiet w Hquiet).
    unfold get_sunset_or_default, try_except, bind.
    rewrite (request_ok _ _ _ _ Hquiet _ _ Hreply). simpl. now decide_ltb. }
  destruct (schedule_quiet_trace sunset w1 Hquiet)
    as (w' & Hrun & Hqueued & Htrace & Hclock & Hlamps & _).
  assert (Hfill : fill_timeline w = (Ok tt, w')).
  { unfold fill_timeline. unfold bind at 1. rewrite Hnext. exact Hrun. }
  exists w'. split; [|split; [|split; [|split; [|split]]]].
  - unfold turn, try_except. unfold bind at 1.
    rewrite (pop_on_empty None w Htl). cbv beta iota.
    unfold bind. now rewrite Hfill.
  - rewrite Hqueued.
    change (timeline w1) with (timeline w). change (tz w1) with (tz w). rewrite Htl.
    eapply perm_trans; [apply sort_perm|].
    eapply perm_trans; [apply Permutation_app_tail, sort_perm|].
    eapply perm_trans;
      [apply Permutation_app_tail, Permutation_app_tail, sort_perm|].
    apply Permutation_refl.
  - rewrite Hqueued. apply sort_ascending.
  - rewrite Htrace. change (trace w1) with (trace w ++ [HttpGet (request_for LATITUDE LONGITUDE (clock w))]).
    change (tz w1) with (tz w). rewrite <- app_assoc. reflexivity.
  - exact Hclock.
  - exact Hlamps.
Qed.

Lemma turn_refills_empty_timeline_witness :
  exists w',
    turn [1; 2] [1; 2] [] (sample_world (hours 12) (always (hours 10) (hours 24)))
    = (Ok Continue, w') /\
    clock w' = hours 12 /\
    ascending (timeline w').
Proof.
  destruct (turn_refills_empty_timeline [1; 2] [1; 2] []
              (sample_world (hours 12) (always (hours 10) (hours 24)))
              (hours 10) (hours 24) eq_refl eq_refl eq_refl eq_refl)
    as (w' & Hrun & _ & Hasc & _ & Hclock & _).
  exists w'. split; [exact Hrun|]. split; [exact Hclock|exact Hasc].
Defined.

(** ** More on the timeline, the interrupt and the schedule *)

(** X21: [insert] never fails, whatever the timeline holds: it adds its
    event to the events queued, leaves the whole timeline in ascending
    order of time, even one that was not, and touches nothing else. *)
Theorem insert_sorts_timeline ev w :
  exists w',
    Timeline.insert ev w = (Ok tt, w') /\
    Permutation (timeline w') (ev :: timeline w) /\
    ascending (timeline w') /\
    clock w' = clock w /\ trace w' = trace w /\ lamps w' = lamps w /\
    sigint w' = sigint w.
Proof.
  destruct (insert_spec ev w) as (w' & Hrun & Hperm & Hasc & Hc & Ht & Hs & _ & Hl & _).
  exists w'. repeat split; assumption.
Qed.

(** X22: an interrupt while the loop waits for the next event.  When the
    entries are those [save_current_states] returned for the devices, the
    loop ends by [break] and every device of the list is in the state it
    had when the entries were saved, whatever was done to the lamps in
    between; the devices are lights then as they were when they were
    saved. *)
Theorem interrupt_while_waiting_restores fuel group devices w0 saved w1 w ev rest :
  sigint w0 = None ->
  save_current_states devices w0 = (Ok saved, w1) ->
  all_lights w devices ->
  timeline w = ev :: rest -> sigint w = Some 0%nat ->
  exists w',
    main_loop (S fuel) group devices saved w = (Ok Exited, w') /\
    forall d, In d devices -> lamps w' d = lamps w0 d.
Proof.
  intros Hquiet0 Hsave Hlights Htl Hint.
  pose proof (save_current_states_lights devices w0 saved w1 Hquiet0 Hsave) as Hlights0.
  destruct (save_current_states_spec devices w0 Hquiet0 Hlights0) as (w1' & Hrun & _).
  rewrite Hrun in Hsave. inversion Hsave; subst; clear Hsave.
  set (entry := fun d : mac => (d, lamp_power (lamps w0 d), lamp_color (lamps w0 d))).
  destruct (reset_from_spec devices [] (map entry devices) (set_sigint None w) eq_refl)
    as (w' & Hreset & _ & _ & _ & Hin).
  { exact Hlights. }
  { rewrite length_map. lia. }
  exists w'. split.
  - rewrite (interrupt_while_waiting fuel group devices _ w ev rest Htl Hint).
    unfold bind, reset_device_states. simpl List.length in Hreset. simpl app in Hreset.
    now rewrite Hreset.
  - intros d Hd. apply (Hin (lamps w0)); [|exact Hd].
    intros d' s Hds. pose proof (in_combine_l _ _ _ _ Hds) as Hd'.
    apply in_combine_map in Hds. subst s.
    unfold lamp_of_saved, entry, saved_power, saved_color. simpl.
    specialize (Hlights0 d' Hd'). destruct (lamps w0 d'). simpl in Hlights0. now subst.
Qed.

Lemma interrupt_while_waiting_restores_witness :
  exists w',
    main_loop 1 [1; 2] [1; 2]
      [(1, true, COLOR_NEUTRAL_LIGHT); (2, false, (0, 0, 0, 0))]
      (set_sigint (Some 0%nat)
         (set_timeline [sample_event "late" (hours 21)]
            (sample_world (hours 12) (fun _ => Unreachable))))
    = (Ok Exited, w') /\
    forall d, In d [1; 2] -> lamps w' d = lamps (one_lit (hours 9)) d.
Proof.
  apply (interrupt_while_waiting_restores 0 [1; 2] [1; 2] (one_lit (hours 9))
           [(1, true, COLOR_NEUTRAL_LIGHT); (2, false, (0, 0, 0, 0))]
           (snd (save_current_states [1; 2] (one_lit (hours 9))))
           (set_sigint (Some 0%nat)
              (set_timeline [sample_event "late" (hours 21)]
                 (sample_world (hours 12) (fun _ => Unreachable))))
           (sample_event "late" (hours 21)) []);
    [reflexivity|vm_compute; reflexivity|intros d _; reflexivity|reflexivity|reflexivity].
Defined.

(** X23: the Lights Off event falls on midnight.  In a zone that has, three
    hours after 21:00 of the local date of the sunset, the offset [mktime]
    used for 21:00, the local clock shows 00:00 of the next day when
    Lights Off is due. *)
Theorem lightsoff_at_local_midnight z sunset :
  utcoffset z (TimeEvent.time (lightsoff_event z sunset))
  = local_date z sunset * usec_per_day + _time 21 0 0
    - mktime z (local_date z sunset * usec_per_day + _time 21 0 0) ->
  local_date z (TimeEvent.time (lightsoff_event z sunset)) = local_date z sunset + 1 /\
  local_time z (TimeEvent.time (lightsoff_event z sunset)) = 0.
Proof.
  intros Hzone.
  unfold local_date at 1, local_time, wall_clock. rewrite Hzone. simpl TimeEvent.time.
  set (d := local_date z sunset).
  replace (mktime z (d * usec_per_day + _time 21 0 0) + hours 3
           + (d * usec_per_day + _time 21 0 0
              - mktime z (d * usec_per_day + _time 21 0 0)))
    with (0 + (d + 1) * usec_per_day)
    by (unfold _time, hours, minutes, seconds, usec_per_day, usec_per_second; lia).
  assert (Hday : usec_per_day <> 0) by (vm_compute; discriminate).
  rewrite Z.div_add, Z.mod_add by exact Hday.
  split; reflexivity.
Qed.

Lemma lightsoff_at_local_midnight_witness :
  local_date (fixed_zone (hours (-4)))
    (TimeEvent.time (lightsoff_event (fixed_zone (hours (-4))) (hours 24)))
  = local_date (fixed_zone (hours (-4))) (hours 24) + 1 /\
  local_time (fixed_zone (hours (-4)))
    (TimeEvent.time (lightsoff_event (fixed_zone (hours (-4))) (hours 24))) = 0.
Proof.
  apply (lightsoff_at_local_midnight (fixed_zone (hours (-4))) (hours 24)).
  vm_compute. reflexivity.
Defined.
